(** * Chunked memory-layout planner: [MemAllocatorHelper] and [KernelTraits]

    A shallow embedding of the layout planner of the GEMM kernel traits
    header: the class [MemAllocatorHelper] (padded sizes, prefix footprints,
    chunk offsets) and the [KernelTraits] constructor that assembles the SMEM
    and TMEM pools, followed by the properties of the layout specification.

    Conventions of the embedding.
    - [int32_t] values are integers of [Z]; every arithmetic operation of the
      source is followed by its two's-complement wrap-around ([Int32.wrap]).
      Signed overflow is undefined in C++, so the value-level properties are
      stated for layouts whose footprint fits [int32_t].
    - A failed [TLLM_CHECK_ERROR] is the outcome [Raise InvalidAlignment].
    - [std::vector::operator[]] is unchecked: reading past the end is the
      outcome [Undefined], as is an integer division by zero.
    - [getChunkOffset] calls itself; the embedding counts the calls with a
      fuel argument and [None] means that the fuel ran out. *)

From Stdlib Require Import ZArith List Bool Lia.
From Stdlib Require String.
Import ListNotations.
Import String.StringSyntax.
Delimit Scope string_scope with string.
Local Open Scope Z_scope.

(** ** 32-bit signed integers *)

Module Int32.

Definition min_signed : Z := -2147483648.
Definition max_signed : Z := 2147483647.

(** Reduction of an integer to its 32-bit two's-complement value. *)
Definition wrap (z : Z) : Z := (z + 2147483648) mod 4294967296 - 2147483648.

Definition in_range (z : Z) : bool := (min_signed <=? z) && (z <=? max_signed).

Definition add (a b : Z) : Z := wrap (a + b).
Definition sub (a b : Z) : Z := wrap (a - b).
Definition mul (a b : Z) : Z := wrap (a * b).

End Int32.

(** ** Outcomes of a call *)

(** The two error kinds of the layout specification. *)
Inductive error : Type :=
| InvalidAlignment
| IndexOutOfRange.

(** A call returns a value, raises an error, or has no defined behaviour. *)
Inductive outcome (A : Type) : Type :=
| Ok (a : A)
| Raise (e : error)
| Undefined.

Arguments Ok {A} a.
Arguments Raise {A} e.
Arguments Undefined {A}.

Definition bind {A B : Type} (m : outcome A) (k : A -> outcome B) : outcome B :=
  match m with
  | Ok a => k a
  | Raise e => Raise e
  | Undefined => Undefined
  end.

Notation "x <- m ;; k" := (bind m (fun x => k))
  (at level 61, m at next level, right associativity).
Notation "m ;;; k" := (bind m (fun _ => k))
  (at level 61, right associativity).

(** Integer division of [int32_t] operands truncates towards zero; it is
    undefined for a zero divisor and for [INT32_MIN / -1]. *)
Definition div32_defined (a b : Z) : bool :=
  negb (b =? 0) && negb ((a =? Int32.min_signed) && (b =? -1)).

Definition div32 (a b : Z) : outcome Z :=
  if div32_defined a b then Ok (Z.quot a b) else Undefined.

(** Modelled from the spec: the macro [TLLM_CHECK_ERROR] is declared outside
    the given sources.  Its only use guards the alignment, and the
    specification names the failure [InvalidAlignment], a fatal error that
    propagates to the caller. *)
Definition TLLM_CHECK_ERROR (cond : bool) : outcome unit :=
  if cond then Ok tt else Raise InvalidAlignment.

(** [v[i]] on a [std::vector]: no bounds check. *)
Definition vec_get {A : Type} (v : list A) (i : Z) : outcome A :=
  if i <? 0 then Undefined
  else match nth_error v (Z.to_nat i) with
       | Some a => Ok a
       | None => Undefined
       end.

(** ** MemAllocatorHelper *)

Record MemAllocatorHelper : Type := mkMemAllocatorHelper {
  mNumBytesAndAlignmentPerSmemChunk : list (Z * Z);
  mFirstChunkReuse : list bool
}.

(** [(size + alignment - 1) & ~(alignment - 1)], after the power-of-two check. *)
Definition getSizePaddedToAlignment (size alignment : Z) : outcome Z :=
  TLLM_CHECK_ERROR (Z.land alignment (Int32.sub alignment 1) =? 0) ;;;
  Ok (Z.land (Int32.sub (Int32.add size alignment) 1)
             (Z.lnot (Int32.sub alignment 1))).

(** The body of the [for] loop of [getOffsetBeforeChunk]: [n] iterations are
    left, [ii] is the loop index and [totalSize] the running total. *)
Fixpoint offsetLoop (h : MemAllocatorHelper) (n : nat) (ii totalSize : Z)
  : outcome Z :=
  match n with
  | O => Ok totalSize
  | S n' =>
      elem <- vec_get (mNumBytesAndAlignmentPerSmemChunk h) ii ;;
      paddedSize <- getSizePaddedToAlignment (fst elem) (snd elem) ;;
      reused <- vec_get (mFirstChunkReuse h) ii ;;
      if reused && (totalSize <? paddedSize)
      then offsetLoop h n' (ii + 1) paddedSize
      else if negb reused
           then offsetLoop h n' (ii + 1) (Int32.add totalSize paddedSize)
           else offsetLoop h n' (ii + 1) totalSize
  end.

(** The loop runs for [ii = 0 .. jj - 1], hence not at all when [jj <= 0]. *)
Definition getOffsetBeforeChunk (h : MemAllocatorHelper) (jj : Z) : outcome Z :=
  offsetLoop h (Z.to_nat jj) 0 0.

(** [getChunkOffset]; every call, the delegated one included, uses one unit
    of fuel. *)
Fixpoint getChunkOffset (fuel : nat) (h : MemAllocatorHelper) (ii : Z)
  : option (outcome Z) :=
  match fuel with
  | O => None
  | S fuel' =>
      match vec_get (mFirstChunkReuse h) ii with
      | Ok true => getChunkOffset fuel' h 0
      | Ok false =>
          Some (offset <- getOffsetBeforeChunk h ii ;;
                elem <- vec_get (mNumBytesAndAlignmentPerSmemChunk h) ii ;;
                getSizePaddedToAlignment offset (snd elem))
      | Raise e => Some (Raise e)
      | Undefined => Some Undefined
      end
  end.

(** [static_cast<int32_t>(size())] is the wrap-around of the length. *)
Definition getTotalSize (h : MemAllocatorHelper) : outcome Z :=
  getOffsetBeforeChunk h
    (Int32.wrap (Z.of_nat (length (mNumBytesAndAlignmentPerSmemChunk h)))).

(** ** Chunk descriptors *)

(** The descriptor of the layout specification: the planner stores the
    pairs (size, alignment) and the reuse flags in two parallel vectors. *)
Record Chunk : Type := mkChunk {
  sizeBytes : Z;
  alignment : Z;
  reuseFirstChunk : bool
}.

(** The two-vector constructor of [MemAllocatorHelper], applied to a sequence
    of descriptors. *)
Definition planner (cs : list Chunk) : MemAllocatorHelper :=
  mkMemAllocatorHelper (map (fun c => (sizeBytes c, alignment c)) cs)
                       (map reuseFirstChunk cs).

(** ** KernelTraits *)

(** The declarations of [Dtype.h] and [Enums.h] that the constructor uses are
    outside the given sources; they are taken as parameters.  The bit width
    returned by [dtypeGetNumBits] is an [int]. *)
Class GemmDecls : Type := {
  Dtype : Type;
  Dtype_Fp32 : Dtype;
  Dtype_UInt32 : Dtype;
  dtypeGetNumBits : Dtype -> Z;
  dtypeIsBlockFmt : Dtype -> bool;
  SplitK : Type;
  doesSplitKUseDsmem : SplitK -> bool;
  AllReduceAlgo : Type;
  AllReduceAlgo_TwoShot : AllReduceAlgo;
  AllReduceAlgo_eqb : AllReduceAlgo -> AllReduceAlgo -> bool
}.

(** [trtllm::gen::ceilDiv] at [int32_t]. *)
Definition ceilDiv (m n : Z) : outcome Z :=
  div32 (Int32.sub (Int32.add m n) 1) n.

Section KernelTraits.

Context `{GemmDecls}.

(** The arguments of the [KernelTraits] constructor, in its order. *)
Record KernelTraitsArgs : Type := mkKernelTraitsArgs {
  dtypeElt : Dtype;
  dtypeC : Dtype;
  dtypeAcc : Dtype;
  tileM : Z;
  tileN : Z;
  tileK : Z;
  epilogueTileM : Z;
  epilogueTileN : Z;
  numStages : Z;
  numStagesMma : Z;
  numSlicesForSplitK : Z;
  numSlicesForSliceK : Z;
  splitK : SplitK;
  useTmaStore : bool;
  transposeMmaOutput : bool;
  allReduceAlgo : AllReduceAlgo;
  useDeepSeekFp8 : bool
}.

Record KernelTraits : Type := mkKernelTraits {
  mSmemAllocatorHelper : MemAllocatorHelper;
  mTmemAllocatorHelper : MemAllocatorHelper
}.

(** [emplace_back] on the two vectors under construction. *)
Definition emplace (st : list (Z * Z) * list bool) (numBytes align : Z)
    (reuse : bool) : list (Z * Z) * list bool :=
  (fst st ++ [(numBytes, align)], snd st ++ [reuse]).

(** One iteration of the [GmemC] loop, for [resIdx]. *)
Definition smemGmemC (a : KernelTraitsArgs) (resIdx : Z)
    (st : list (Z * Z) * list bool) : outcome (list (Z * Z) * list bool) :=
  let dtypeSmemC :=
    if AllReduceAlgo_eqb (allReduceAlgo a) AllReduceAlgo_TwoShot
       || (1 <? numSlicesForSplitK a)
    then dtypeAcc a else dtypeC a in
  let usesSmemForGmemC := useTmaStore a || doesSplitKUseDsmem (splitK a) in
  let extraGmemCMultiplier0 :=
    if doesSplitKUseDsmem (splitK a) then numSlicesForSplitK a else 1 in
  let extraGmemCMultiplier1 :=
    if 1 <? numSlicesForSliceK a
    then Int32.mul extraGmemCMultiplier0 (numSlicesForSliceK a)
    else extraGmemCMultiplier0 in
  let extraGmemCMultiplier :=
    if negb (resIdx =? 0) && negb (useDeepSeekFp8 a)
    then 0 else extraGmemCMultiplier1 in
  numBytesSmemStoreC <-
    (if usesSmemForGmemC
     then div32 (Int32.mul (Int32.mul (Int32.mul extraGmemCMultiplier
                                                 (epilogueTileM a))
                                      (epilogueTileN a))
                           (dtypeGetNumBits dtypeSmemC)) 8
     else Ok 0) ;;
  let numBytesAlignmentStoreC := 1024 in
  let reuseFirstChunksSmemStoreC :=
    doesSplitKUseDsmem (splitK a) && (resIdx =? 0) in
  Ok (emplace st numBytesSmemStoreC numBytesAlignmentStoreC
              reuseFirstChunksSmemStoreC).

(** The SMEM block of the constructor. *)
Definition buildSmem (a : KernelTraitsArgs) : outcome MemAllocatorHelper :=
  let st := (@nil (Z * Z), @nil bool) in
  (* LoadA *)
  numSmemBytesLoadA <-
    div32 (Int32.mul (Int32.mul (Int32.mul (numStages a) (tileM a)) (tileK a))
                     (dtypeGetNumBits (dtypeElt a))) 8 ;;
  let st := emplace st numSmemBytesLoadA 1024 false in
  (* LoadB *)
  numSmemBytesLoadB <-
    div32 (Int32.mul (Int32.mul (Int32.mul (numStages a) (tileN a)) (tileK a))
                     (dtypeGetNumBits (dtypeElt a))) 8 ;;
  let st := emplace st numSmemBytesLoadB 1024 false in
  (* SmemBShuffle *)
  numSmemBytesShuffleB <-
    (if 1 <? numSlicesForSliceK a
     then div32 (Int32.mul (Int32.mul (Int32.mul (numStages a) (tileN a))
                                      (tileK a))
                           (dtypeGetNumBits (dtypeElt a))) 8
     else Ok 0) ;;
  let st := emplace st numSmemBytesShuffleB 1024 false in
  (* GmemC, resIdx = 0, 1 *)
  st <- smemGmemC a 0 st ;;
  st <- smemGmemC a 1 st ;;
  (* RowMax *)
  let numDqSfsCPerCta := if transposeMmaOutput a then tileM a else tileN a in
  numBytesSmemRowMax <-
    div32 (Int32.mul (if useDeepSeekFp8 a then numDqSfsCPerCta else 0)
                     (dtypeGetNumBits Dtype_Fp32)) 8 ;;
  let st := emplace st numBytesSmemRowMax 16 false in
  (* SliceK *)
  let tileSize :=
    if 1 <? numSlicesForSliceK a
    then Int32.mul (Int32.mul (Int32.mul (numSlicesForSliceK a) (tileM a))
                              (numSlicesForSliceK a))
                   (tileN a)
    else 0 in
  numBytesSmemTile <-
    div32 (Int32.mul tileSize (dtypeGetNumBits (dtypeAcc a))) 8 ;;
  let st := emplace st numBytesSmemTile 16 false in
  Ok (mkMemAllocatorHelper (fst st) (snd st)).

(** The TMEM block of the constructor. *)
Definition buildTmem (a : KernelTraitsArgs) : outcome MemAllocatorHelper :=
  let st := (@nil (Z * Z), @nil bool) in
  (* Matrix D *)
  numTmemColsD <-
    div32 (Int32.mul (Int32.mul (Int32.mul (numSlicesForSliceK a) (tileN a))
                                (numStagesMma a))
                     (dtypeGetNumBits (dtypeAcc a)))
          (dtypeGetNumBits Dtype_UInt32) ;;
  let st := emplace st numTmemColsD 2 false in
  (* Matrix A *)
  numTmemColsA <-
    (if 1 <? numSlicesForSliceK a
     then d <- div32 (Int32.mul (numSlicesForSliceK a)
                                (dtypeGetNumBits Dtype_UInt32))
                     (dtypeGetNumBits (dtypeElt a)) ;;
          div32 (Int32.mul (numStages a) (tileK a)) d
     else Ok 0) ;;
  let st := emplace st numTmemColsA 4 false in
  let useBlockScaling := dtypeIsBlockFmt (dtypeElt a) in
  (* Sf A *)
  numTmemColsSfA <-
    (if useBlockScaling
     then q <- div32 (tileK a) 64 ;;
          c <- ceilDiv (tileM a) 64 ;;
          Ok (Int32.mul (Int32.mul (Int32.mul q 2) c) (numStages a))
     else Ok 0) ;;
  let st := emplace st numTmemColsSfA 2 false in
  (* Sf B *)
  numTmemColsSfB <-
    (if useBlockScaling
     then q <- div32 (tileK a) 64 ;;
          c <- ceilDiv (tileN a) 64 ;;
          Ok (Int32.mul (Int32.mul (Int32.mul q 2) c) (numStages a))
     else Ok 0) ;;
  let st := emplace st numTmemColsSfB 2 false in
  Ok (mkMemAllocatorHelper (fst st) (snd st)).

(** The constructor: the SMEM block, then the TMEM block. *)
Definition KernelTraits_new (a : KernelTraitsArgs) : outcome KernelTraits :=
  smem <- buildSmem a ;;
  tmem <- buildTmem a ;;
  Ok (mkKernelTraits smem tmem).

Definition getSmemBufferSize (traits : KernelTraits) : outcome Z :=
  getTotalSize (mSmemAllocatorHelper traits).

Definition getTmemBufferSize (traits : KernelTraits) : outcome Z :=
  getTotalSize (mTmemAllocatorHelper traits).

(** The named accessors; [fuel] bounds the calls of [getChunkOffset]. *)
Definition getSmemOffsetLoadA (fuel : nat) (traits : KernelTraits) :=
  getChunkOffset fuel (mSmemAllocatorHelper traits) 0.

Definition getSmemOffsetLoadB (fuel : nat) (traits : KernelTraits) :=
  getChunkOffset fuel (mSmemAllocatorHelper traits) 1.

Definition getSmemOffsetLoadAb (fuel : nat) (traits : KernelTraits) :=
  getSmemOffsetLoadA fuel traits.

Definition getSmemOffsetLoadShuffleB (fuel : nat) (traits : KernelTraits) :=
  getChunkOffset fuel (mSmemAllocatorHelper traits) 2.

Definition getSmemOffsetGmemC (fuel : nat) (traits : KernelTraits)
    (resIdx : Z) :=
  getChunkOffset fuel (mSmemAllocatorHelper traits) (Int32.add 3 resIdx).

Definition getSmemOffsetRowMax (fuel : nat) (traits : KernelTraits) :=
  getChunkOffset fuel (mSmemAllocatorHelper traits) 5.

Definition getSmemOffsetSliceK (fuel : nat) (traits : KernelTraits) :=
  getChunkOffset fuel (mSmemAllocatorHelper traits) 6.

Definition getTmemOffsetD (fuel : nat) (traits : KernelTraits) :=
  getChunkOffset fuel (mTmemAllocatorHelper traits) 0.

Definition getTmemOffsetA (fuel : nat) (traits : KernelTraits) :=
  getChunkOffset fuel (mTmemAllocatorHelper traits) 1.

Definition getTmemOffsetSfA (fuel : nat) (traits : KernelTraits) :=
  getChunkOffset fuel (mTmemAllocatorHelper traits) 2.

Definition getTmemOffsetSfB (fuel : nat) (traits : KernelTraits) :=
  getChunkOffset fuel (mTmemAllocatorHelper traits) 3.

End KernelTraits.

(** A concrete set of declarations, used to run the constructor: a data type
    is identified with its bit width, the split-K mode with the answer of
    [doesSplitKUseDsmem], and the all-reduce algorithm with a number, 2 being
    the two-shot algorithm. *)
#[local] Instance SampleDecls : GemmDecls := {|
  Dtype := Z;
  Dtype_Fp32 := 32;
  Dtype_UInt32 := 32;
  dtypeGetNumBits := fun bits => bits;
  dtypeIsBlockFmt := fun bits => bits <? 8;
  SplitK := bool;
  doesSplitKUseDsmem := fun usesDsmem => usesDsmem;
  AllReduceAlgo := Z;
  AllReduceAlgo_TwoShot := 2;
  AllReduceAlgo_eqb := Z.eqb
|}.

(** An FP8 GEMM with a 128x64x128 tile, three stages and split-K in DSMEM. *)
Definition sampleArgs : KernelTraitsArgs :=
  mkKernelTraitsArgs 8 16 32 128 64 128 128 64 3 2 2 1 true true false 0 false.

(** ** Vocabulary of the layout specification *)

(** A power of two. *)
Definition isPowerOfTwo (a : Z) : bool :=
  (0 <? a) && (a =? 2 ^ Z.log2 a).

(** An alignment that is a power of two and an [int32_t]. *)
Definition valid_alignment (a : Z) : bool :=
  isPowerOfTwo a && (a <=? Int32.max_signed).

Definition pow2_alignments (cs : list Chunk) : bool :=
  forallb (fun c => valid_alignment (alignment c)) cs.

Definition nonneg_sizes (cs : list Chunk) : bool :=
  forallb (fun c => 0 <=? sizeBytes c) cs.

Definition chunk0_not_reused (cs : list Chunk) : bool :=
  match cs with
  | [] => true
  | c :: _ => negb (reuseFirstChunk c)
  end.

(** A bound on the magnitude of every value that the planner computes: each
    chunk counts for the magnitude of its size and for its alignment. *)
Definition footprint_bound (cs : list Chunk) : Z :=
  fold_right (fun c acc => Z.abs (sizeBytes c) + alignment c + acc) 0 cs.

(** No signed overflow: the footprint fits [int32_t]. *)
Definition fits_int32 (cs : list Chunk) : bool :=
  footprint_bound cs <=? Int32.max_signed.

(** [roundUp] of the specification: the smallest multiple of [a] that is at
    least [size]. *)
Definition roundUp (size a : Z) : Z := (size + a - 1) / a * a.

Definition paddedSize (c : Chunk) : Z := roundUp (sizeBytes c) (alignment c).

(** One step of the accumulation that the specification describes for
    [offsetBefore]. *)
Definition spec_step (total : Z) (c : Chunk) : Z :=
  let padded := paddedSize c in
  if reuseFirstChunk c && (total <? padded) then padded
  else if negb (reuseFirstChunk c) then total + padded
  else total.

(** [offsetBefore(j)] of the specification, over unbounded integers. *)
Definition spec_offsetBefore (cs : list Chunk) (j : nat) : Z :=
  fold_left spec_step (firstn j cs) 0.

(** Whether the half-open ranges [[a, a + la)] and [[b, b + lb)] share a
    byte. *)
Definition ranges_intersect (a la b lb : Z) : bool :=
  Z.max a b <? Z.min (a + la) (b + lb).

(** The sequence in which chunk [k] has size 0, alignment and reuse flag
    unchanged. *)
Fixpoint zeroSize (k : nat) (cs : list Chunk) : list Chunk :=
  match cs, k with
  | [], _ => []
  | c :: r, O => mkChunk 0 (alignment c) (reuseFirstChunk c) :: r
  | c :: r, S k' => c :: zeroSize k' r
  end.

(** The loop of [getOffsetBeforeChunk] read over the chunks it visits. *)
Fixpoint offsetFold (cs : list Chunk) (totalSize : Z) : outcome Z :=
  match cs with
  | [] => Ok totalSize
  | c :: r =>
      paddedSize <- getSizePaddedToAlignment (sizeBytes c) (alignment c) ;;
      if reuseFirstChunk c && (totalSize <? paddedSize)
      then offsetFold r paddedSize
      else if negb (reuseFirstChunk c)
           then offsetFold r (Int32.add totalSize paddedSize)
           else offsetFold r totalSize
  end.

(** The descriptors held by a planner whose two vectors have one length. *)
Definition chunks_of (h : MemAllocatorHelper) : list Chunk :=
  map (fun e => mkChunk (fst (fst e)) (snd (fst e)) (snd e))
      (combine (mNumBytesAndAlignmentPerSmemChunk h) (mFirstChunkReuse h)).

(** A call of [getChunkOffset] that returns an offset within its fuel. *)
Definition returns_offset (r : option (outcome Z)) : Prop :=
  exists off, r = Some (Ok off).

(** The divisions of the constructor whose divisor is not a constant: the
    one by the width of [UInt32] and, with slice-K, the two of the columns
    of A. *)
Definition divisions_defined `{GemmDecls} (a : KernelTraitsArgs) : bool :=
  div32_defined
    (Int32.mul (Int32.mul (Int32.mul (numSlicesForSliceK a) (tileN a))
                          (numStagesMma a))
               (dtypeGetNumBits (dtypeAcc a)))
    (dtypeGetNumBits Dtype_UInt32)
  && (if 1 <? numSlicesForSliceK a
      then div32_defined (Int32.mul (numSlicesForSliceK a)
                                    (dtypeGetNumBits Dtype_UInt32))
                         (dtypeGetNumBits (dtypeElt a))
           && div32_defined
                (Int32.mul (numStages a) (tileK a))
                (Z.quot (Int32.mul (numSlicesForSliceK a)
                                   (dtypeGetNumBits Dtype_UInt32))
                        (dtypeGetNumBits (dtypeElt a)))
      else true).

(** The traits that the constructor builds from [sampleArgs]. *)
Definition sampleTraits : KernelTraits :=
  mkKernelTraits
    (mkMemAllocatorHelper
       [(49152, 1024); (24576, 1024); (0, 1024); (65536, 1024); (0, 1024);
        (0, 16); (0, 16)]
       [false; false; false; true; false; false; false])
    (mkMemAllocatorHelper
       [(128, 2); (0, 4); (0, 2); (0, 2)]
       [false; false; false; false]).

(** ** Further vocabulary for the planner *)

(** The sum of the padded sizes of the chunks that are not marked as
    reused. *)
Definition nonReusedPadded (cs : list Chunk) : Z :=
  fold_right (fun c acc =>
                if reuseFirstChunk c then acc else paddedSize c + acc) 0 cs.

(** Alignments that never increase along the sequence, the first one being
    at most [a]. *)
Fixpoint alignments_descend (a : Z) (cs : list Chunk) : bool :=
  match cs with
  | [] => true
  | c :: r => (alignment c <=? a) && alignments_descend (alignment c) r
  end.

Definition alignments_descending (cs : list Chunk) : bool :=
  match cs with
  | [] => true
  | c :: _ => alignments_descend (alignment c) cs
  end.

(** A call of [getChunkOffset] that returns a multiple of [a]. *)
Definition returns_multiple_of (a : Z) (r : option (outcome Z)) : Prop :=
  exists off, r = Some (Ok off) /\ off mod a = 0.

(** A sequence whose chunk 0 is marked as reused. *)
Definition reusedFirst : list Chunk :=
  [mkChunk 64 16 true; mkChunk 32 16 false; mkChunk 8 8 true].

(** A slice-K GEMM on a block-scaled 4-bit element type whose accumulator
    tile takes 18 TMEM columns, and the traits built from it. *)
Definition overlapArgs : KernelTraitsArgs :=
  mkKernelTraitsArgs 4 16 32 128 9 128 128 8 3 1 1 2 false true false 0 false.

Definition overlapTraits : KernelTraits :=
  mkKernelTraits
    (mkMemAllocatorHelper
       [(24576, 1024); (1728, 1024); (1728, 1024); (4096, 1024); (0, 1024);
        (0, 16); (18432, 16)]
       [false; false; false; false; false; false; false])
    (mkMemAllocatorHelper
       [(18, 2); (24, 4); (24, 2); (12, 2)]
       [false; false; false; false]).

(** ** The argument checks of [fp8_block_scale_moe_runner] *)

(** 64-bit signed integers, as [Int32]. *)
Module Int64.

Definition min_signed : Z := -9223372036854775808.
Definition max_signed : Z := 9223372036854775807.

Definition wrap (z : Z) : Z :=
  (z + 9223372036854775808) mod 18446744073709551616 - 9223372036854775808.

Definition mul (a b : Z) : Z := wrap (a * b).

End Int64.

(** The element types that the checks name; every other one is
    [ScalarType_Other]. *)
Inductive ScalarType : Type :=
| ScalarType_Float
| ScalarType_BFloat16
| ScalarType_Float8_e4m3fn
| ScalarType_Int
| ScalarType_Other.

Definition ScalarType_eqb (x y : ScalarType) : bool :=
  match x, y with
  | ScalarType_Float, ScalarType_Float => true
  | ScalarType_BFloat16, ScalarType_BFloat16 => true
  | ScalarType_Float8_e4m3fn, ScalarType_Float8_e4m3fn => true
  | ScalarType_Int, ScalarType_Int => true
  | ScalarType_Other, ScalarType_Other => true
  | _, _ => false
  end.

(** What the checks read of a tensor: its element type and its shape. *)
Record Tensor : Type := mkTensor {
  scalar_type : ScalarType;
  sizes : list Z
}.

Definition dim (t : Tensor) : Z := Z.of_nat (length (sizes t)).

(** A sequence of checks passes, stops at the first [TORCH_CHECK] that
    fails with its message, or has no defined behaviour. *)
Inductive checked (A : Type) : Type :=
| Passed (a : A)
| TorchError (msg : String.string)
| UndefinedBehaviour.

Arguments Passed {A} a.
Arguments TorchError {A} msg.
Arguments UndefinedBehaviour {A}.

Definition and_then {A B : Type} (m : checked A) (k : A -> checked B)
  : checked B :=
  match m with
  | Passed a => k a
  | TorchError msg => TorchError msg
  | UndefinedBehaviour => UndefinedBehaviour
  end.

Notation "x <-- m ;; k" := (and_then m (fun x => k))
  (at level 61, m at next level, right associativity).
Notation "m >>> k" := (and_then m (fun _ => k))
  (at level 61, right associativity).

Definition TORCH_CHECK (cond : bool) (msg : String.string) : checked unit :=
  if cond then Passed tt else TorchError msg.

(** [t.sizes()[i]]: no bounds check. *)
Definition sizes_at (t : Tensor) (i : nat) : checked Z :=
  match nth_error (sizes t) i with
  | Some d => Passed d
  | None => UndefinedBehaviour
  end.

(** [a % b] and [a / b] on [int64_t]: undefined for a zero divisor and for
    [INT64_MIN] with the divisor -1. *)
Definition divisor64_defined (a b : Z) : bool :=
  negb (b =? 0) && negb ((a =? Int64.min_signed) && (b =? -1)).

Definition rem64 (a b : Z) : checked Z :=
  if divisor64_defined a b then Passed (Z.rem a b) else UndefinedBehaviour.

Definition div64 (a b : Z) : checked Z :=
  if divisor64_defined a b then Passed (Z.quot a b) else UndefinedBehaviour.

(** The checks that open [fp8_block_scale_moe_runner], in their order, up to
    the set-up of the runner arguments; [sm] is the value of
    [getSMVersion()].  The function then allocates the workspace tensors
    and launches the kernels. *)
Definition fp8_block_scale_moe_runner_checks (sm : Z)
    (routing_logits routing_bias : Tensor)
    (num_experts top_k n_group topk_group : Z) : checked unit :=
  TORCH_CHECK (sm =? 100)
    "Only SM100 is supported by FP8 block scale MOE"%string >>>
  TORCH_CHECK (ScalarType_eqb (scalar_type routing_logits) ScalarType_Float)
    "routing_logits must be float."%string >>>
  TORCH_CHECK (dim routing_logits =? 2) "routing_logits must be 2D."%string >>>
  d1 <-- sizes_at routing_logits 1 ;;
  TORCH_CHECK (d1 =? num_experts)
    "routing_logits has incorrect shape."%string >>>
  TORCH_CHECK (ScalarType_eqb (scalar_type routing_bias) ScalarType_BFloat16)
    "routing_bias must be bfloat16."%string >>>
  TORCH_CHECK (dim routing_bias =? 1) "routing_bias must be 1D."%string >>>
  d0 <-- sizes_at routing_bias 0 ;;
  TORCH_CHECK (d0 =? num_experts) "routing_bias has incorrect shape."%string >>>
  TORCH_CHECK (top_k =? 8)
    "Current routing kernel only supports top_k=8."%string >>>
  TORCH_CHECK (topk_group =? 4)
    "Current routing kernel only supports topk_group=4."%string >>>
  r4 <-- rem64 num_experts 4 ;;
  TORCH_CHECK (r4 =? 0)
    "Routing kernel expects that num_experts must be divisible by 4"%string >>>
  rg <-- rem64 num_experts n_group ;;
  TORCH_CHECK (rg =? 0) "num_experts must be divisible by n_group"%string >>>
  TORCH_CHECK (top_k <? num_experts)
    "num_experts must be greater than top_k"%string >>>
  q <-- div64 (Int64.mul topk_group num_experts) n_group ;;
  TORCH_CHECK (top_k <? q)
    "top_k must be less than total number of experts in selected groups"%string.

(** Routing logits and bias of 256 experts. *)
Definition sampleLogits : Tensor := mkTensor ScalarType_Float [16; 256].
Definition sampleBias : Tensor := mkTensor ScalarType_BFloat16 [256].

(** ** Sequences of the specification's scenarios *)

Definition scenario1 : list Chunk :=
  [mkChunk 100 16 false; mkChunk 50 16 false].

Definition scenario2 : list Chunk :=
  [mkChunk 1 1 false; mkChunk 1 1 false; mkChunk 1024 1 true].

Definition scenario3 : list Chunk :=
  [mkChunk 100 16 false; mkChunk 50 16 false; mkChunk 8 1 true].

(** A reused chunk whose alignment is 3. *)
Definition reusedOddAlignment : list Chunk :=
  [mkChunk 16 16 false; mkChunk 10 3 true].

(** A chunk of alignment 16 that follows a chunk of one byte. *)
Definition gapBeforeSecond : list Chunk :=
  [mkChunk 1 1 false; mkChunk 16 16 false; mkChunk 4 1 false].

(** ** Arithmetic of the padding *)

Lemma wrap_small (z : Z) :
  Int32.min_signed <= z <= Int32.max_signed -> Int32.wrap z = z.
Proof.
  unfold Int32.min_signed, Int32.max_signed, Int32.wrap. intros Hz.
  rewrite Z.mod_small by lia. lia.
Qed.

Lemma isPowerOfTwo_inv (a : Z) :
  isPowerOfTwo a = true -> 0 < a /\ a = 2 ^ Z.log2 a.
Proof.
  unfold isPowerOfTwo. intros Ha.
  apply andb_true_iff in Ha. destruct Ha as [Hpos Heq].
  apply Z.ltb_lt in Hpos. apply Z.eqb_eq in Heq. now split.
Qed.

Lemma isPowerOfTwo_pow (k : Z) : 0 <= k -> isPowerOfTwo (2 ^ k) = true.
Proof.
  intros Hk. unfold isPowerOfTwo.
  rewrite Z.log2_pow2 by assumption.
  rewrite Z.eqb_refl, andb_true_r. apply Z.ltb_lt. now apply Z.pow_pos_nonneg.
Qed.

Lemma valid_alignment_inv (a : Z) :
  valid_alignment a = true ->
  exists k, 0 <= k /\ a = 2 ^ k /\ 1 <= a <= Int32.max_signed.
Proof.
  unfold valid_alignment. intros Ha.
  apply andb_true_iff in Ha. destruct Ha as [Hp Hle].
  apply Z.leb_le in Hle. apply isPowerOfTwo_inv in Hp. destruct Hp as [Hpos Heq].
  exists (Z.log2 a). split; [apply Z.log2_nonneg | split; [exact Heq | lia]].
Qed.

(** The check of the source accepts a power of two. *)
Lemma land_pred_pow2 (k : Z) : 0 <= k -> Z.land (2 ^ k) (2 ^ k - 1) = 0.
Proof.
  intros Hk. replace (2 ^ k - 1) with (Z.ones k) by (rewrite Z.ones_equiv; lia).
  rewrite Z.land_ones by assumption. apply Z.mod_same.
  pose proof (Z.pow_pos_nonneg 2 k); lia.
Qed.

(** The check rejects every positive integer that is not a power of two:
    such an integer and its predecessor share their leading bit. *)
Lemma land_pred_not_pow2 (a : Z) :
  0 < a -> a <> 2 ^ Z.log2 a -> Z.land a (a - 1) <> 0.
Proof.
  intros Hpos Hne Hland.
  pose proof (Z.log2_spec a Hpos) as [Hlo Hhi].
  pose proof (Z.pow_pos_nonneg 2 (Z.log2 a) ltac:(lia) (Z.log2_nonneg a)) as Hp.
  assert (Hlog : Z.log2 (a - 1) = Z.log2 a).
  { apply Z.log2_unique; [apply Z.log2_nonneg | lia]. }
  assert (Hbit : Z.testbit (Z.land a (a - 1)) (Z.log2 a) = true).
  { rewrite Z.land_spec, Z.bit_log2 by assumption.
    rewrite <- Hlog. rewrite Z.bit_log2 by lia. reflexivity. }
  rewrite Hland, Z.bits_0 in Hbit. discriminate.
Qed.

Lemma check_iff_pow2 (a : Z) :
  1 <= a -> (Z.land a (a - 1) =? 0) = isPowerOfTwo a.
Proof.
  intros Ha. destruct (isPowerOfTwo a) eqn:Hp.
  - apply isPowerOfTwo_inv in Hp. destruct Hp as [_ Heq].
    apply Z.eqb_eq. rewrite Heq at 1 2. apply land_pred_pow2, Z.log2_nonneg.
  - apply Z.eqb_neq. apply land_pred_not_pow2; [lia |].
    intros Heq. unfold isPowerOfTwo in Hp. rewrite <- Heq, Z.eqb_refl in Hp.
    apply andb_false_iff in Hp. destruct Hp as [Hp | Hp]; [| discriminate].
    apply Z.ltb_ge in Hp. lia.
Qed.

(** Masking with [~(2^k - 1)] clears the [k] low bits. *)
Lemma land_lnot_pred_pow2 (y k : Z) :
  0 <= k -> Z.land y (Z.lnot (2 ^ k - 1)) = y / 2 ^ k * 2 ^ k.
Proof.
  intros Hk. replace (2 ^ k - 1) with (Z.ones k) by (rewrite Z.ones_equiv; lia).
  rewrite <- Z.ldiff_land, Z.ldiff_ones_r by assumption.
  now rewrite Z.shiftl_mul_pow2, Z.shiftr_div_pow2.
Qed.

(** [roundUp] is the smallest multiple of the alignment above the size. *)
Lemma roundUp_multiple (size a : Z) : a <> 0 -> roundUp size a mod a = 0.
Proof. intros Ha. unfold roundUp. now apply Z.mod_mul. Qed.

Lemma roundUp_bounds (size a : Z) :
  0 < a -> size <= roundUp size a <= size + a - 1.
Proof.
  intros Ha. unfold roundUp.
  pose proof (Z.div_mod (size + a - 1) a ltac:(lia)) as Hdm.
  pose proof (Z.mod_pos_bound (size + a - 1) a Ha) as Hmod. lia.
Qed.

Lemma roundUp_least (size a m : Z) :
  0 < a -> m mod a = 0 -> size <= m -> roundUp size a <= m.
Proof.
  intros Ha Hm Hle. unfold roundUp.
  apply Z.div_exact in Hm; [| lia].
  assert (Hq : (size + a - 1) / a <= m / a).
  { apply Z.lt_succ_r. apply Z.div_lt_upper_bound; [assumption | nia]. }
  nia.
Qed.

Lemma roundUp_mono (x y a : Z) : 0 < a -> x <= y -> roundUp x a <= roundUp y a.
Proof.
  intros Ha Hxy. unfold roundUp.
  apply Z.mul_le_mono_nonneg_r; [lia |].
  apply Z.div_le_mono; lia.
Qed.

Lemma roundUp_zero (a : Z) : 0 < a -> roundUp 0 a = 0.
Proof.
  intros Ha. unfold roundUp. rewrite Z.div_small by lia. reflexivity.
Qed.

Lemma roundUp_aligned (x a : Z) : 0 < a -> x mod a = 0 -> roundUp x a = x.
Proof.
  intros Ha Hx. pose proof (roundUp_bounds x a Ha).
  pose proof (roundUp_least x a x Ha Hx ltac:(lia)). lia.
Qed.

(** ** The padded size *)

Lemma getSizePaddedToAlignment_cases (size a : Z) :
  (exists v, getSizePaddedToAlignment size a = Ok v) \/
  getSizePaddedToAlignment size a = Raise InvalidAlignment.
Proof.
  unfold getSizePaddedToAlignment, TLLM_CHECK_ERROR.
  destruct (Z.land a (Int32.sub a 1) =? 0); simpl; eauto.
Qed.

Lemma sub_one_small (a : Z) :
  1 <= a <= Int32.max_signed -> Int32.sub a 1 = a - 1.
Proof.
  intros Ha. unfold Int32.sub. apply wrap_small.
  unfold Int32.min_signed, Int32.max_signed in *. lia.
Qed.

Lemma getSizePaddedToAlignment_check (size a : Z) :
  1 <= a <= Int32.max_signed ->
  getSizePaddedToAlignment size a =
    if isPowerOfTwo a
    then Ok (Z.land (Int32.sub (Int32.add size a) 1) (Z.lnot (a - 1)))
    else Raise InvalidAlignment.
Proof.
  intros Ha. unfold getSizePaddedToAlignment, TLLM_CHECK_ERROR.
  rewrite sub_one_small, check_iff_pow2 by lia.
  destruct (isPowerOfTwo a); reflexivity.
Qed.

(** With a valid alignment the padded size is returned and is a multiple of
    the alignment, whatever the size. *)
Lemma getSizePaddedToAlignment_valid (size a : Z) :
  valid_alignment a = true ->
  exists v, getSizePaddedToAlignment size a = Ok v /\ v mod a = 0.
Proof.
  intros Hv. pose proof Hv as Hv'.
  apply valid_alignment_inv in Hv'. destruct Hv' as (k & Hk & Heq & Hrange).
  unfold valid_alignment in Hv. apply andb_true_iff in Hv. destruct Hv as [Hp _].
  rewrite getSizePaddedToAlignment_check, Hp by assumption.
  eexists. split; [reflexivity |].
  rewrite Heq, land_lnot_pred_pow2 by assumption.
  apply Z.mod_mul. pose proof (Z.pow_pos_nonneg 2 k); lia.
Qed.

(** Without overflow the padded size is [roundUp]. *)
Lemma getSizePaddedToAlignment_exact (size a : Z) :
  valid_alignment a = true ->
  Int32.min_signed <= size -> size + a <= Int32.max_signed ->
  getSizePaddedToAlignment size a = Ok (roundUp size a).
Proof.
  intros Hv Hlo Hhi. pose proof Hv as Hv'.
  apply valid_alignment_inv in Hv'. destruct Hv' as (k & Hk & Heq & Hrange).
  unfold valid_alignment in Hv. apply andb_true_iff in Hv. destruct Hv as [Hp _].
  rewrite getSizePaddedToAlignment_check, Hp by assumption.
  unfold Int32.add, Int32.sub.
  rewrite (wrap_small (size + a)) by lia.
  rewrite wrap_small by (unfold Int32.min_signed in *; lia).
  unfold roundUp. generalize (size + a - 1). intros y.
  rewrite Heq. now rewrite land_lnot_pred_pow2.
Qed.

Lemma getSizePaddedToAlignment_invalid (size a : Z) :
  1 <= a <= Int32.max_signed -> isPowerOfTwo a = false ->
  getSizePaddedToAlignment size a = Raise InvalidAlignment.
Proof.
  intros Ha Hp. now rewrite getSizePaddedToAlignment_check, Hp.
Qed.

(** ** The vectors of a planner *)

Lemma vec_get_map {A B : Type} (f : A -> B) (l : list A) (i : nat) :
  vec_get (map f l) (Z.of_nat i) =
    match nth_error l i with
    | Some c => Ok (f c)
    | None => Undefined
    end.
Proof.
  unfold vec_get. destruct (Z.ltb_spec (Z.of_nat i) 0) as [Hneg | _]; [lia |].
  rewrite Nat2Z.id, nth_error_map. destruct (nth_error l i); reflexivity.
Qed.

Lemma vec_get_outside {A : Type} (l : list A) (i : Z) :
  i < 0 \/ Z.of_nat (length l) <= i -> vec_get l i = Undefined.
Proof.
  intros Hi. unfold vec_get. destruct (Z.ltb_spec i 0) as [_ | Hnn]; [reflexivity |].
  assert (Hnone : nth_error l (Z.to_nat i) = None)
    by (apply nth_error_None; lia).
  now rewrite Hnone.
Qed.

Lemma skipn_nth_error {A : Type} (l : list A) (i : nat) (c : A) :
  nth_error l i = Some c -> skipn i l = c :: skipn (S i) l.
Proof.
  revert l. induction i as [| i IH]; intros [| x l] Hnth; simpl in Hnth;
    try discriminate.
  - now injection Hnth as ->.
  - now apply IH.
Qed.

Lemma vec_get_sizes (cs : list Chunk) (i : nat) :
  vec_get (mNumBytesAndAlignmentPerSmemChunk (planner cs)) (Z.of_nat i) =
    match nth_error cs i with
    | Some c => Ok (sizeBytes c, alignment c)
    | None => Undefined
    end.
Proof. apply (vec_get_map (fun c => (sizeBytes c, alignment c))). Qed.

Lemma vec_get_reuse (cs : list Chunk) (i : nat) :
  vec_get (mFirstChunkReuse (planner cs)) (Z.of_nat i) =
    match nth_error cs i with
    | Some c => Ok (reuseFirstChunk c)
    | None => Undefined
    end.
Proof. apply (vec_get_map reuseFirstChunk). Qed.

(** The loop of the source visits the chunks [i .. i + n - 1] in order. *)
Lemma offsetLoop_planner (cs : list Chunk) (n i : nat) (total : Z) :
  (i + n <= length cs)%nat ->
  offsetLoop (planner cs) n (Z.of_nat i) total =
    offsetFold (firstn n (skipn i cs)) total.
Proof.
  revert i total. induction n as [| n IH]; intros i total Hlen; [reflexivity |].
  destruct (nth_error cs i) as [c |] eqn:Hnth;
    [| apply nth_error_None in Hnth; lia].
  rewrite (skipn_nth_error _ _ _ Hnth). cbn [offsetLoop firstn offsetFold].
  rewrite vec_get_sizes, vec_get_reuse, Hnth. cbn [bind fst snd].
  replace (Z.of_nat i + 1) with (Z.of_nat (S i)) by lia.
  destruct (getSizePaddedToAlignment (sizeBytes c) (alignment c)) as [p | e |];
    cbn [bind]; try reflexivity.
  rewrite !IH by lia.
  reflexivity.
Qed.

Lemma getOffsetBeforeChunk_planner (cs : list Chunk) (j : nat) :
  (j <= length cs)%nat ->
  getOffsetBeforeChunk (planner cs) (Z.of_nat j) = offsetFold (firstn j cs) 0.
Proof.
  intros Hj. unfold getOffsetBeforeChunk. rewrite Nat2Z.id.
  apply (offsetLoop_planner cs j 0 0). lia.
Qed.

(** ** The running total *)

Lemma offsetFold_cases (l : list Chunk) (t : Z) :
  (exists v, offsetFold l t = Ok v) \/ offsetFold l t = Raise InvalidAlignment.
Proof.
  revert t. induction l as [| c l IH]; intros t; cbn [offsetFold]; [eauto |].
  destruct (getSizePaddedToAlignment_cases (sizeBytes c) (alignment c))
    as [[p Hp] | Hp]; rewrite Hp; cbn [bind]; [| now right].
  destruct (reuseFirstChunk c && (t <? p)); [apply IH |].
  destruct (negb (reuseFirstChunk c)); apply IH.
Qed.

Lemma offsetFold_ok (l : list Chunk) (t : Z) :
  pow2_alignments l = true -> exists v, offsetFold l t = Ok v.
Proof.
  revert t. induction l as [| c l IH]; intros t Hal; cbn [offsetFold]; [eauto |].
  cbn [pow2_alignments forallb] in Hal. apply andb_true_iff in Hal.
  destruct Hal as [Hc Hl].
  destruct (getSizePaddedToAlignment_valid (sizeBytes c) _ Hc) as (p & Hp & _).
  rewrite Hp. cbn [bind].
  destruct (reuseFirstChunk c && (t <? p)); [now apply IH |].
  destruct (negb (reuseFirstChunk c)); now apply IH.
Qed.

Lemma offsetFold_invalid (l : list Chunk) (t : Z) (c : Chunk) :
  In c l -> 1 <= alignment c <= Int32.max_signed ->
  isPowerOfTwo (alignment c) = false ->
  offsetFold l t = Raise InvalidAlignment.
Proof.
  intros Hin Hrange Hbad. revert t.
  induction l as [| d l IH]; intros t; [contradiction |].
  cbn [offsetFold].
  destruct (getSizePaddedToAlignment_cases (sizeBytes d) (alignment d))
    as [[p Hp] | Hp]; rewrite Hp; cbn [bind]; [| reflexivity].
  destruct Hin as [-> | Hin].
  - rewrite getSizePaddedToAlignment_invalid in Hp by assumption. discriminate.
  - destruct (reuseFirstChunk d && (t <? p)); [now apply IH |].
    destruct (negb (reuseFirstChunk d)); now apply IH.
Qed.

Lemma pow2_alignments_cons (c : Chunk) (l : list Chunk) :
  pow2_alignments (c :: l) = true ->
  valid_alignment (alignment c) = true /\ pow2_alignments l = true.
Proof. intros Hal. now apply andb_true_iff in Hal. Qed.

Lemma nonneg_sizes_cons (c : Chunk) (l : list Chunk) :
  nonneg_sizes (c :: l) = true -> 0 <= sizeBytes c /\ nonneg_sizes l = true.
Proof.
  intros Hs. apply andb_true_iff in Hs. destruct Hs as [Hc Hl].
  apply Z.leb_le in Hc. now split.
Qed.

Lemma valid_alignment_pos (a : Z) : valid_alignment a = true -> 0 < a.
Proof.
  intros Hv. apply valid_alignment_inv in Hv. destruct Hv as (k & _ & _ & Hr). lia.
Qed.

Lemma paddedSize_bounds (c : Chunk) :
  valid_alignment (alignment c) = true ->
  sizeBytes c <= paddedSize c <= sizeBytes c + alignment c - 1.
Proof. intros Hv. apply roundUp_bounds. now apply valid_alignment_pos. Qed.

(** A step of the accumulation never lowers a non-negative total and adds at
    most the padded size. *)
Lemma spec_step_range (t : Z) (c : Chunk) :
  0 <= t -> 0 <= paddedSize c -> t <= spec_step t c <= t + paddedSize c.
Proof.
  intros Ht Hp. unfold spec_step.
  destruct (reuseFirstChunk c); cbn [andb negb].
  - destruct (Z.ltb_spec t (paddedSize c)); lia.
  - lia.
Qed.

Lemma spec_step_abs (t : Z) (c : Chunk) :
  Z.abs (spec_step t c) <= Z.abs t + Z.abs (paddedSize c).
Proof.
  unfold spec_step. destruct (reuseFirstChunk c); cbn [andb negb].
  - destruct (t <? paddedSize c); lia.
  - lia.
Qed.

Lemma spec_step_mono (t t' : Z) (c c' : Chunk) :
  t' <= t -> paddedSize c' <= paddedSize c ->
  reuseFirstChunk c' = reuseFirstChunk c ->
  spec_step t' c' <= spec_step t c.
Proof.
  intros Ht Hp Hr. unfold spec_step. rewrite Hr.
  destruct (reuseFirstChunk c); cbn [andb negb].
  - destruct (Z.ltb_spec t' (paddedSize c')), (Z.ltb_spec t (paddedSize c)); lia.
  - lia.
Qed.

Lemma footprint_bound_cons (c : Chunk) (l : list Chunk) :
  footprint_bound (c :: l) =
    Z.abs (sizeBytes c) + alignment c + footprint_bound l.
Proof. reflexivity. Qed.

Lemma spec_fold_abs (l : list Chunk) (t : Z) :
  pow2_alignments l = true ->
  Z.abs (fold_left spec_step l t)
    <= Z.abs t + footprint_bound l - Z.of_nat (length l).
Proof.
  revert t. induction l as [| c l IH]; intros t Hal; [cbn; lia |].
  rewrite footprint_bound_cons. cbn [fold_left length].
  apply pow2_alignments_cons in Hal. destruct Hal as [Hc Hal].
  pose proof (paddedSize_bounds c Hc) as Hp.
  pose proof (spec_step_abs t c) as Hstep.
  specialize (IH (spec_step t c) Hal). lia.
Qed.

Lemma spec_fold_lower (l : list Chunk) (t : Z) :
  pow2_alignments l = true -> nonneg_sizes l = true -> 0 <= t ->
  t <= fold_left spec_step l t.
Proof.
  revert t. induction l as [| c l IH]; intros t Hal Hs Ht; cbn [fold_left];
    [lia |].
  apply pow2_alignments_cons in Hal. destruct Hal as [Hc Hal].
  apply nonneg_sizes_cons in Hs. destruct Hs as [Hsc Hs].
  pose proof (paddedSize_bounds c Hc) as Hp.
  pose proof (spec_step_range t c Ht ltac:(lia)) as Hstep.
  specialize (IH (spec_step t c) Hal Hs ltac:(lia)). lia.
Qed.

(** Without overflow the loop computes the accumulation of the
    specification. *)
Lemma offsetFold_exact (l : list Chunk) (t : Z) :
  pow2_alignments l = true ->
  Z.abs t + footprint_bound l <= Int32.max_signed ->
  offsetFold l t = Ok (fold_left spec_step l t).
Proof.
  revert t. induction l as [| c l IH]; intros t Hal Hfit;
    cbn [offsetFold fold_left]; [reflexivity |].
  rewrite footprint_bound_cons in Hfit.
  apply pow2_alignments_cons in Hal. destruct Hal as [Hc Hal].
  pose proof (paddedSize_bounds c Hc) as Hp.
  pose proof (spec_step_abs t c) as Hstep.
  pose proof (spec_fold_abs l 0 Hal) as Hrest.
  pose proof (valid_alignment_pos _ Hc) as Hpos.
  rewrite getSizePaddedToAlignment_exact;
    [| assumption | unfold Int32.min_signed, Int32.max_signed in *; lia | lia].
  cbn [bind]. fold (paddedSize c).
  assert (Hnext : offsetFold l (spec_step t c) =
                  Ok (fold_left spec_step l (spec_step t c))).
  { apply IH; [assumption | lia]. }
  revert Hnext Hstep. unfold spec_step.
  destruct (reuseFirstChunk c); cbn [andb negb].
  - destruct (t <? paddedSize c); trivial.
  - intros Hnext Hstep. unfold Int32.add. rewrite wrap_small; [trivial |].
    unfold Int32.min_signed, Int32.max_signed in *. lia.
Qed.

(** ** The offset of a chunk *)

Lemma getChunkOffset_not_reused (cs : list Chunk) (i : nat) (c : Chunk)
    (fuel : nat) :
  nth_error cs i = Some c -> reuseFirstChunk c = false ->
  getChunkOffset (S fuel) (planner cs) (Z.of_nat i) =
    Some (offset <- offsetFold (firstn i cs) 0 ;;
          getSizePaddedToAlignment offset (alignment c)).
Proof.
  intros Hnth Hr. cbn [getChunkOffset].
  rewrite vec_get_reuse, vec_get_sizes, Hnth, Hr.
  rewrite getOffsetBeforeChunk_planner; [reflexivity |].
  apply Nat.lt_le_incl, nth_error_Some. now rewrite Hnth.
Qed.

Lemma getChunkOffset_reused (cs : list Chunk) (i : nat) (c : Chunk)
    (fuel : nat) :
  nth_error cs i = Some c -> reuseFirstChunk c = true ->
  getChunkOffset (S fuel) (planner cs) (Z.of_nat i) =
    getChunkOffset fuel (planner cs) 0.
Proof.
  intros Hnth Hr. cbn [getChunkOffset]. now rewrite vec_get_reuse, Hnth, Hr.
Qed.

(** Chunk 0 starts the arena. *)
Lemma getChunkOffset_first (c : Chunk) (r : list Chunk) (fuel : nat) :
  reuseFirstChunk c = false -> valid_alignment (alignment c) = true ->
  getChunkOffset (S fuel) (planner (c :: r)) 0 = Some (Ok 0).
Proof.
  intros Hr Hv.
  change (getChunkOffset (S fuel) (planner (c :: r)) 0)
    with (getChunkOffset (S fuel) (planner (c :: r)) (Z.of_nat 0)).
  rewrite (getChunkOffset_not_reused (c :: r) 0 c fuel eq_refl Hr).
  cbn [firstn offsetFold bind].
  pose proof (valid_alignment_inv _ Hv) as (k & _ & _ & Hrange).
  rewrite getSizePaddedToAlignment_exact;
    [| assumption | unfold Int32.min_signed; lia | lia].
  now rewrite roundUp_zero by lia.
Qed.

Lemma chunk0_in_sequence (cs : list Chunk) (i : nat) (c : Chunk) :
  nth_error cs i = Some c -> exists c0 r, cs = c0 :: r.
Proof. destruct cs as [| c0 r]; [destruct i; discriminate | eauto]. Qed.

(** A reused chunk is placed by one delegation to chunk 0. *)
Lemma getChunkOffset_alias (cs : list Chunk) (i : nat) (c : Chunk)
    (fuel : nat) :
  pow2_alignments cs = true -> chunk0_not_reused cs = true ->
  nth_error cs i = Some c -> reuseFirstChunk c = true ->
  getChunkOffset (S (S fuel)) (planner cs) (Z.of_nat i) = Some (Ok 0).
Proof.
  intros Hal H0 Hnth Hr.
  rewrite (getChunkOffset_reused cs i c (S fuel) Hnth Hr).
  destruct (chunk0_in_sequence cs i c Hnth) as (c0 & r & ->).
  apply pow2_alignments_cons in Hal. destruct Hal as [Hc0 _].
  cbn [chunk0_not_reused] in H0. apply negb_true_iff in H0.
  now apply getChunkOffset_first.
Qed.

Lemma pow2_alignments_nth (cs : list Chunk) (i : nat) (c : Chunk) :
  pow2_alignments cs = true -> nth_error cs i = Some c ->
  valid_alignment (alignment c) = true.
Proof.
  intros Hal Hnth. unfold pow2_alignments in Hal.
  rewrite forallb_forall in Hal. apply Hal. eapply nth_error_In, Hnth.
Qed.

Lemma pow2_alignments_firstn (cs : list Chunk) (j : nat) :
  pow2_alignments cs = true -> pow2_alignments (firstn j cs) = true.
Proof.
  unfold pow2_alignments. rewrite <- (firstn_skipn j cs) at 1.
  rewrite forallb_app. intros Hal. now apply andb_true_iff in Hal.
Qed.

(** With power-of-two alignments every chunk of a sequence whose chunk 0 is
    not reused has an offset, found with at most one delegation, and the
    offset is a multiple of the alignment of the chunk. *)
Lemma getChunkOffset_defined (cs : list Chunk) (i : nat) (c : Chunk)
    (fuel : nat) :
  pow2_alignments cs = true -> chunk0_not_reused cs = true ->
  nth_error cs i = Some c ->
  exists off, getChunkOffset (S (S fuel)) (planner cs) (Z.of_nat i) = Some (Ok off)
              /\ off mod alignment c = 0.
Proof.
  intros Hal H0 Hnth. destruct (reuseFirstChunk c) eqn:Hr.
  - exists 0. split; [now apply (getChunkOffset_alias cs i c) | apply Z.mod_0_l].
    pose proof (valid_alignment_pos _ (pow2_alignments_nth _ _ _ Hal Hnth)). lia.
  - rewrite (getChunkOffset_not_reused cs i c _ Hnth Hr).
    destruct (offsetFold_ok (firstn i cs) 0 (pow2_alignments_firstn cs i Hal))
      as [b Hb].
    rewrite Hb. cbn [bind].
    destruct (getSizePaddedToAlignment_valid b _
                (pow2_alignments_nth _ _ _ Hal Hnth)) as (off & Hoff & Hmod).
    exists off. now rewrite Hoff.
Qed.

(** ** Layouts that fit [int32_t] *)

Lemma pow2_alignments_app (l1 l2 : list Chunk) :
  pow2_alignments (l1 ++ l2) = true ->
  pow2_alignments l1 = true /\ pow2_alignments l2 = true.
Proof.
  unfold pow2_alignments. rewrite forallb_app. apply andb_true_iff.
Qed.

Lemma nonneg_sizes_app (l1 l2 : list Chunk) :
  nonneg_sizes (l1 ++ l2) = true ->
  nonneg_sizes l1 = true /\ nonneg_sizes l2 = true.
Proof.
  unfold nonneg_sizes. rewrite forallb_app. apply andb_true_iff.
Qed.

Lemma footprint_bound_app (l1 l2 : list Chunk) :
  footprint_bound (l1 ++ l2) = footprint_bound l1 + footprint_bound l2.
Proof.
  induction l1 as [| c l1 IH]; [reflexivity |].
  cbn [app]. rewrite !footprint_bound_cons. lia.
Qed.

Lemma footprint_bound_length (l : list Chunk) :
  pow2_alignments l = true -> Z.of_nat (length l) <= footprint_bound l.
Proof. intros Hal. pose proof (spec_fold_abs l 0 Hal). lia. Qed.

(** The hypotheses on a sequence pass to its two parts. *)
Lemma fits_int32_app (l1 l2 : list Chunk) :
  pow2_alignments (l1 ++ l2) = true -> fits_int32 (l1 ++ l2) = true ->
  pow2_alignments l1 = true /\ pow2_alignments l2 = true /\
  footprint_bound l1 + footprint_bound l2 <= Int32.max_signed /\
  0 <= footprint_bound l1 /\ 0 <= footprint_bound l2.
Proof.
  intros Hal Hfit.
  apply pow2_alignments_app in Hal. destruct Hal as [Hal1 Hal2].
  unfold fits_int32 in Hfit. apply Z.leb_le in Hfit.
  rewrite footprint_bound_app in Hfit.
  pose proof (footprint_bound_length l1 Hal1).
  pose proof (footprint_bound_length l2 Hal2).
  repeat split; try assumption; lia.
Qed.

Lemma fits_int32_firstn (cs : list Chunk) (j : nat) :
  pow2_alignments cs = true -> fits_int32 cs = true ->
  pow2_alignments (firstn j cs) = true /\
  footprint_bound (firstn j cs) + footprint_bound (skipn j cs)
    <= Int32.max_signed /\
  0 <= footprint_bound (skipn j cs).
Proof.
  intros Hal Hfit. rewrite <- (firstn_skipn j cs) in Hal, Hfit.
  destruct (fits_int32_app _ _ Hal Hfit) as (? & ? & ? & ? & ?).
  repeat split; assumption.
Qed.

Lemma getOffsetBeforeChunk_exact (cs : list Chunk) (j : nat) :
  pow2_alignments cs = true -> fits_int32 cs = true ->
  (j <= length cs)%nat ->
  getOffsetBeforeChunk (planner cs) (Z.of_nat j) = Ok (spec_offsetBefore cs j).
Proof.
  intros Hal Hfit Hj. rewrite getOffsetBeforeChunk_planner by assumption.
  destruct (fits_int32_firstn cs j Hal Hfit) as (Hal1 & Hsum & Hrest).
  apply offsetFold_exact; [assumption | lia].
Qed.

Lemma spec_offsetBefore_range (cs : list Chunk) (j : nat) :
  pow2_alignments cs = true -> fits_int32 cs = true ->
  Z.abs (spec_offsetBefore cs j) + footprint_bound (skipn j cs)
    <= Int32.max_signed.
Proof.
  intros Hal Hfit.
  destruct (fits_int32_firstn cs j Hal Hfit) as (Hal1 & Hsum & Hrest).
  pose proof (spec_fold_abs (firstn j cs) 0 Hal1) as Hr.
  unfold spec_offsetBefore. lia.
Qed.

Lemma getChunkOffset_exact (cs : list Chunk) (i : nat) (c : Chunk)
    (fuel : nat) :
  pow2_alignments cs = true -> fits_int32 cs = true ->
  nth_error cs i = Some c -> reuseFirstChunk c = false ->
  getChunkOffset (S fuel) (planner cs) (Z.of_nat i) =
    Some (Ok (roundUp (spec_offsetBefore cs i) (alignment c))).
Proof.
  intros Hal Hfit Hnth Hr.
  rewrite (getChunkOffset_not_reused cs i c fuel Hnth Hr).
  assert (Hi : (i <= length cs)%nat).
  { apply Nat.lt_le_incl, nth_error_Some. now rewrite Hnth. }
  pose proof (getOffsetBeforeChunk_exact cs i Hal Hfit Hi) as Hoff.
  rewrite getOffsetBeforeChunk_planner in Hoff by assumption.
  rewrite Hoff. cbn [bind].
  pose proof (spec_offsetBefore_range cs i Hal Hfit) as Hhi.
  rewrite (skipn_nth_error _ _ _ Hnth), footprint_bound_cons in Hhi.
  destruct (fits_int32_firstn cs (S i) Hal Hfit) as (_ & _ & Hrest).
  pose proof (pow2_alignments_nth _ _ _ Hal Hnth) as Hc.
  pose proof (valid_alignment_pos _ Hc) as Hpos.
  rewrite getSizePaddedToAlignment_exact;
    [reflexivity | assumption
     | unfold Int32.min_signed, Int32.max_signed in *; lia | lia].
Qed.

Lemma wrap_length (cs : list Chunk) :
  pow2_alignments cs = true -> fits_int32 cs = true ->
  Int32.wrap (Z.of_nat (length (mNumBytesAndAlignmentPerSmemChunk (planner cs))))
    = Z.of_nat (length cs).
Proof.
  intros Hal Hfit. cbn [planner mNumBytesAndAlignmentPerSmemChunk].
  rewrite length_map. apply wrap_small.
  pose proof (footprint_bound_length cs Hal).
  unfold fits_int32 in Hfit. apply Z.leb_le in Hfit.
  unfold Int32.min_signed. lia.
Qed.

Lemma getTotalSize_exact (cs : list Chunk) :
  pow2_alignments cs = true -> fits_int32 cs = true ->
  getTotalSize (planner cs) = Ok (spec_offsetBefore cs (length cs)).
Proof.
  intros Hal Hfit. unfold getTotalSize. rewrite wrap_length by assumption.
  now apply getOffsetBeforeChunk_exact.
Qed.

Lemma firstn_plus {A : Type} (a b : nat) (l : list A) :
  firstn (a + b) l = firstn a l ++ firstn b (skipn a l).
Proof.
  revert l. induction a as [| a IH]; intros l; [reflexivity |].
  destruct l as [| x l]; cbn [Nat.add firstn skipn app].
  - now rewrite firstn_nil.
  - now rewrite IH.
Qed.

Lemma spec_offsetBefore_nonneg (cs : list Chunk) (j : nat) :
  pow2_alignments cs = true -> nonneg_sizes cs = true ->
  0 <= spec_offsetBefore cs j.
Proof.
  intros Hal Hs. apply spec_fold_lower; [| | lia].
  - now apply pow2_alignments_firstn.
  - rewrite <- (firstn_skipn j cs) in Hs. now apply nonneg_sizes_app in Hs.
Qed.

(** The accumulation grows with the prefix. *)
Lemma spec_offsetBefore_mono (cs : list Chunk) (j1 j2 : nat) :
  pow2_alignments cs = true -> nonneg_sizes cs = true ->
  (j1 <= j2)%nat ->
  spec_offsetBefore cs j1 <= spec_offsetBefore cs j2.
Proof.
  intros Hal Hs Hj.
  pose proof (spec_offsetBefore_nonneg cs j1 Hal Hs) as Ht.
  unfold spec_offsetBefore in *.
  replace j2 with (j1 + (j2 - j1))%nat by lia.
  rewrite firstn_plus, fold_left_app.
  rewrite <- (firstn_skipn j1 cs) in Hal, Hs.
  apply pow2_alignments_app in Hal. apply nonneg_sizes_app in Hs.
  destruct Hal as [_ Hal], Hs as [_ Hs].
  rewrite <- (firstn_skipn (j2 - j1) (skipn j1 cs)) in Hal, Hs.
  apply pow2_alignments_app in Hal. apply nonneg_sizes_app in Hs.
  apply spec_fold_lower; tauto.
Qed.

Lemma firstn_length_app {A : Type} (p s : list A) :
  firstn (length p) (p ++ s) = p.
Proof. induction p as [| x p IH]; [reflexivity |]. cbn. now rewrite IH. Qed.

(** ** Properties of the layout specification *)

(** C2 (as the code has it).  For the sequence [{100,16,false},
    {50,16,false}] the offset of chunk 0 is 0, the offset of chunk 1 is 112
    and the total size is 176: the second chunk is padded to 64 bytes and
    112 + 64 = 176. *)
Theorem scenario1_layout (fuel : nat) :
  getChunkOffset (S fuel) (planner scenario1) 0 = Some (Ok 0) /\
  getChunkOffset (S fuel) (planner scenario1) 1 = Some (Ok 112) /\
  getTotalSize (planner scenario1) = Ok 176.
Proof. repeat split; reflexivity. Qed.

(** C2 (as stated) fails: the total size of that sequence is not 128. *)
Lemma scenario1_total_is_not_128 :
  ~ (getChunkOffset 2 (planner scenario1) 0 = Some (Ok 0) /\
     getChunkOffset 2 (planner scenario1) 1 = Some (Ok 112) /\
     getTotalSize (planner scenario1) = Ok 128).
Proof. intros (_ & _ & Htotal). vm_compute in Htotal. discriminate. Qed.

(** C3 (as the code has it).  For an alignment [a >= 1] the padded size
    fails with [InvalidAlignment] exactly when [a] is not a power of two.
    For a chunk [i] with such an alignment the error is raised by
    [getOffsetBeforeChunk j] for every longer prefix [j > i], and by
    [getChunkOffset i] when the chunk is not marked as reused. *)
Theorem invalid_alignment_raised (cs : list Chunk) (i : nat) (c : Chunk) :
  nth_error cs i = Some c ->
  1 <= alignment c <= Int32.max_signed ->
  (forall size,
     getSizePaddedToAlignment size (alignment c) = Raise InvalidAlignment <->
     isPowerOfTwo (alignment c) = false) /\
  (isPowerOfTwo (alignment c) = false ->
   (forall j, (i < j <= length cs)%nat ->
      getOffsetBeforeChunk (planner cs) (Z.of_nat j) = Raise InvalidAlignment) /\
   (reuseFirstChunk c = false ->
    forall fuel,
      getChunkOffset (S fuel) (planner cs) (Z.of_nat i) =
        Some (Raise InvalidAlignment))).
Proof.
  intros Hnth Hrange. split.
  - intros size. rewrite getSizePaddedToAlignment_check by assumption.
    destruct (isPowerOfTwo (alignment c)); split; intros Heq;
      try reflexivity; discriminate.
  - intros Hbad. split.
    + intros j [Hij Hj]. rewrite getOffsetBeforeChunk_planner by assumption.
      apply (offsetFold_invalid _ _ c); try assumption.
      apply (nth_error_In _ i). rewrite nth_error_firstn.
      apply Nat.ltb_lt in Hij. now rewrite Hij.
    + intros Hr fuel. rewrite (getChunkOffset_not_reused cs i c fuel Hnth Hr).
      destruct (offsetFold_cases (firstn i cs) 0) as [[b Hb] | Hb]; rewrite Hb;
        cbn [bind]; [| reflexivity].
      now rewrite getSizePaddedToAlignment_invalid.
Qed.

Lemma invalid_alignment_raised_witness :
  (forall size,
     getSizePaddedToAlignment size 3 = Raise InvalidAlignment <->
     isPowerOfTwo 3 = false) /\
  (isPowerOfTwo 3 = false ->
   (forall j, (0 < j <= 1)%nat ->
      getOffsetBeforeChunk (planner [mkChunk 10 3 false]) (Z.of_nat j) =
        Raise InvalidAlignment) /\
   (false = false ->
    forall fuel,
      getChunkOffset (S fuel) (planner [mkChunk 10 3 false]) 0 =
        Some (Raise InvalidAlignment))).
Proof.
  apply (invalid_alignment_raised [mkChunk 10 3 false] 0 (mkChunk 10 3 false)).
  - reflexivity.
  - cbn. unfold Int32.max_signed. lia.
Defined.

(** C3 (as stated) fails: a chunk marked as reused is given the offset of
    chunk 0 although its alignment, 3, is not a power of two. *)
Lemma reused_chunk_alignment_unchecked :
  isPowerOfTwo 3 = false /\
  nth_error reusedOddAlignment 1 = Some (mkChunk 10 3 true) /\
  getChunkOffset 2 (planner reusedOddAlignment) 1 = Some (Ok 0).
Proof. repeat split; reflexivity. Qed.

(** C4 (as the code has it).  The planner does not check the index: for
    an index outside [[0, n)] the first statement of [getChunkOffset] reads
    [mFirstChunkReuse] out of its bounds, which has no defined behaviour.
    No error is raised. *)
Theorem chunk_index_outside_undefined (cs : list Chunk) (ii : Z) (fuel : nat) :
  ii < 0 \/ Z.of_nat (length cs) <= ii ->
  getChunkOffset (S fuel) (planner cs) ii = Some Undefined.
Proof.
  intros Hout. cbn [getChunkOffset]. rewrite vec_get_outside; [reflexivity |].
  cbn [planner mFirstChunkReuse]. now rewrite length_map.
Qed.

Lemma chunk_index_outside_undefined_witness :
  getChunkOffset 2 (planner scenario1) 2 = Some Undefined.
Proof.
  apply (chunk_index_outside_undefined scenario1 2 1). right. cbn. lia.
Defined.

(** C4 (as stated) fails: on the empty sequence [getChunkOffset 0] does not
    raise [IndexOutOfRange]. *)
Lemma empty_sequence_no_IndexOutOfRange :
  getChunkOffset 2 (planner []) 0 <> Some (Raise IndexOutOfRange).
Proof. vm_compute. discriminate. Qed.

(** C5.  With power-of-two alignments and chunk 0 not reused, every chunk
    of the sequence, reused or not, has an offset and the offset is a
    multiple of the alignment of the chunk. *)
Theorem chunk_offset_aligned (cs : list Chunk) (i : nat) (c : Chunk)
    (fuel : nat) :
  pow2_alignments cs = true -> chunk0_not_reused cs = true ->
  nth_error cs i = Some c ->
  exists off,
    getChunkOffset (S (S fuel)) (planner cs) (Z.of_nat i) = Some (Ok off) /\
    off mod alignment c = 0.
Proof. apply getChunkOffset_defined. Qed.

Lemma chunk_offset_aligned_witness :
  exists off,
    getChunkOffset 2 (planner scenario1) 1 = Some (Ok off) /\ off mod 16 = 0.
Proof.
  apply (chunk_offset_aligned scenario1 1 (mkChunk 50 16 false) 0);
    reflexivity.
Defined.

(** C6.  With power-of-two alignments and a footprint that fits [int32_t],
    [getOffsetBeforeChunk j] is, for every [j] in [[0, n]], the accumulation
    that the specification describes; [getTotalSize] is
    [getOffsetBeforeChunk n], and is 0 for the empty sequence. *)
Theorem offsetBefore_refines_spec (cs : list Chunk) :
  pow2_alignments cs = true -> fits_int32 cs = true ->
  (forall j, (j <= length cs)%nat ->
     getOffsetBeforeChunk (planner cs) (Z.of_nat j) =
       Ok (spec_offsetBefore cs j)) /\
  getTotalSize (planner cs) =
    getOffsetBeforeChunk (planner cs) (Z.of_nat (length cs)) /\
  getTotalSize (planner []) = Ok 0.
Proof.
  intros Hal Hfit. split; [| split].
  - intros j Hj. now apply getOffsetBeforeChunk_exact.
  - unfold getTotalSize. now rewrite wrap_length.
  - reflexivity.
Qed.

Lemma offsetBefore_refines_spec_witness :
  (forall j, (j <= 3)%nat ->
     getOffsetBeforeChunk (planner scenario2) (Z.of_nat j) =
       Ok (spec_offsetBefore scenario2 j)) /\
  getTotalSize (planner scenario2) =
    getOffsetBeforeChunk (planner scenario2) 3 /\
  getTotalSize (planner []) = Ok 0.
Proof. apply (offsetBefore_refines_spec scenario2); reflexivity. Defined.

(** C7.  With power-of-two alignments and chunk 0 not reused, the offset of
    a chunk marked as reused is the offset of chunk 0. *)
Theorem reused_chunk_aliases_first (cs : list Chunk) (i : nat) (c : Chunk)
    (fuel : nat) :
  pow2_alignments cs = true -> chunk0_not_reused cs = true ->
  nth_error cs i = Some c -> reuseFirstChunk c = true ->
  exists off,
    getChunkOffset (S (S fuel)) (planner cs) (Z.of_nat i) = Some (Ok off) /\
    getChunkOffset (S (S fuel)) (planner cs) 0 = Some (Ok off).
Proof.
  intros Hal H0 Hnth Hr. exists 0. split.
  - now apply (getChunkOffset_alias cs i c).
  - destruct (chunk0_in_sequence cs i c Hnth) as (c0 & r & ->).
    apply pow2_alignments_cons in Hal. destruct Hal as [Hc0 _].
    cbn [chunk0_not_reused] in H0. apply negb_true_iff in H0.
    now apply getChunkOffset_first.
Qed.

Lemma reused_chunk_aliases_first_witness :
  exists off,
    getChunkOffset 2 (planner scenario2) 2 = Some (Ok off) /\
    getChunkOffset 2 (planner scenario2) 0 = Some (Ok off).
Proof.
  apply (reused_chunk_aliases_first scenario2 2 (mkChunk 1024 1 true) 0);
    reflexivity.
Defined.

(** C8.  With power-of-two alignments, non-negative sizes and a footprint
    that fits [int32_t], the total size of a sequence is at least the total
    size of each of its prefixes; equivalently [getOffsetBeforeChunk j] does
    not decrease when [j] grows. *)
Theorem total_size_monotone (p s : list Chunk) :
  pow2_alignments (p ++ s) = true -> nonneg_sizes (p ++ s) = true ->
  fits_int32 (p ++ s) = true ->
  (exists tp t,
     getTotalSize (planner p) = Ok tp /\
     getTotalSize (planner (p ++ s)) = Ok t /\ tp <= t) /\
  (forall j1 j2, (j1 <= j2 <= length (p ++ s))%nat ->
   exists b1 b2,
     getOffsetBeforeChunk (planner (p ++ s)) (Z.of_nat j1) = Ok b1 /\
     getOffsetBeforeChunk (planner (p ++ s)) (Z.of_nat j2) = Ok b2 /\
     b1 <= b2).
Proof.
  intros Hal Hs Hfit.
  destruct (fits_int32_app p s Hal Hfit) as (Halp & _ & Hsum & _ & Hfs).
  assert (Hfitp : fits_int32 p = true) by (apply Z.leb_le; lia).
  split.
  - exists (spec_offsetBefore p (length p)),
           (spec_offsetBefore (p ++ s) (length (p ++ s))).
    split; [now apply getTotalSize_exact |].
    split; [now apply getTotalSize_exact |].
    replace (spec_offsetBefore p (length p))
      with (spec_offsetBefore (p ++ s) (length p)).
    + apply spec_offsetBefore_mono; try assumption.
      rewrite length_app. lia.
    + unfold spec_offsetBefore. now rewrite firstn_length_app, firstn_all.
  - intros j1 j2 [H12 H2].
    exists (spec_offsetBefore (p ++ s) j1), (spec_offsetBefore (p ++ s) j2).
    split; [apply getOffsetBeforeChunk_exact; try assumption; lia |].
    split; [now apply getOffsetBeforeChunk_exact |].
    now apply spec_offsetBefore_mono.
Qed.

Lemma total_size_monotone_witness :
  (exists tp t,
     getTotalSize (planner scenario1) = Ok tp /\
     getTotalSize (planner scenario3) = Ok t /\ tp <= t) /\
  (forall j1 j2, (j1 <= j2 <= 3)%nat ->
   exists b1 b2,
     getOffsetBeforeChunk (planner scenario3) (Z.of_nat j1) = Ok b1 /\
     getOffsetBeforeChunk (planner scenario3) (Z.of_nat j2) = Ok b2 /\
     b1 <= b2).
Proof.
  apply (total_size_monotone scenario1 [mkChunk 8 1 true]); reflexivity.
Defined.

(** ** Disjoint ranges *)

Lemma ranges_intersect_spec (a la b lb : Z) :
  ranges_intersect a la b lb = true <->
  exists x, a <= x < a + la /\ b <= x < b + lb.
Proof.
  unfold ranges_intersect. rewrite Z.ltb_lt. split.
  - intros Hlt. exists (Z.max a b). lia.
  - intros (x & Ha & Hb). lia.
Qed.

Lemma spec_offsetBefore_succ (cs : list Chunk) (i : nat) (c : Chunk) :
  nth_error cs i = Some c ->
  spec_offsetBefore cs (S i) = spec_step (spec_offsetBefore cs i) c.
Proof.
  intros Hnth. unfold spec_offsetBefore.
  replace (S i) with (i + 1)%nat by lia.
  rewrite firstn_plus, fold_left_app, (skipn_nth_error _ _ _ Hnth).
  reflexivity.
Qed.

Lemma nonneg_sizes_nth (cs : list Chunk) (i : nat) (c : Chunk) :
  nonneg_sizes cs = true -> nth_error cs i = Some c -> 0 <= sizeBytes c.
Proof.
  intros Hs Hnth. unfold nonneg_sizes in Hs. rewrite forallb_forall in Hs.
  apply Z.leb_le, Hs. eapply nth_error_In, Hnth.
Qed.

(** C1 (as the code has it).  With power-of-two alignments, non-negative
    sizes and a footprint that fits [int32_t]: for [i < j], neither chunk
    marked as reused, and [getOffsetBeforeChunk i] already a multiple of the
    alignment of chunk [i], chunk [j] starts at or after the end of chunk
    [i], so the two half-open ranges do not intersect. *)
Theorem non_reused_ranges_disjoint (cs : list Chunk) (i j : nat)
    (ci cj : Chunk) (b : Z) (fuel : nat) :
  pow2_alignments cs = true -> nonneg_sizes cs = true ->
  fits_int32 cs = true ->
  (i < j)%nat ->
  nth_error cs i = Some ci -> nth_error cs j = Some cj ->
  reuseFirstChunk ci = false -> reuseFirstChunk cj = false ->
  getOffsetBeforeChunk (planner cs) (Z.of_nat i) = Ok b ->
  b mod alignment ci = 0 ->
  exists oi oj,
    getChunkOffset (S fuel) (planner cs) (Z.of_nat i) = Some (Ok oi) /\
    getChunkOffset (S fuel) (planner cs) (Z.of_nat j) = Some (Ok oj) /\
    oi + paddedSize ci <= oj /\
    ranges_intersect oi (paddedSize ci) oj (paddedSize cj) = false.
Proof.
  intros Hal Hs Hfit Hij Hi Hj Hri Hrj Hb Hmod.
  assert (Hlen : (i <= length cs)%nat).
  { apply Nat.lt_le_incl, nth_error_Some. now rewrite Hi. }
  rewrite getOffsetBeforeChunk_exact in Hb by assumption.
  injection Hb as <-.
  pose proof (valid_alignment_pos _ (pow2_alignments_nth _ _ _ Hal Hi)) as Hai.
  pose proof (valid_alignment_pos _ (pow2_alignments_nth _ _ _ Hal Hj)) as Haj.
  exists (roundUp (spec_offsetBefore cs i) (alignment ci)),
         (roundUp (spec_offsetBefore cs j) (alignment cj)).
  split; [now apply getChunkOffset_exact |].
  split; [now apply getChunkOffset_exact |].
  rewrite (roundUp_aligned _ _ Hai Hmod).
  assert (Hend : spec_offsetBefore cs i + paddedSize ci
                 <= roundUp (spec_offsetBefore cs j) (alignment cj)).
  { pose proof (roundUp_bounds (spec_offsetBefore cs j) _ Haj) as Hup.
    pose proof (spec_offsetBefore_mono cs (S i) j Hal Hs ltac:(lia)) as Hmono.
    rewrite (spec_offsetBefore_succ cs i ci Hi) in Hmono.
    unfold spec_step in Hmono. rewrite Hri in Hmono.
    cbn [andb negb] in Hmono. lia. }
  split; [exact Hend |].
  unfold ranges_intersect. apply Z.ltb_ge. lia.
Qed.

Lemma non_reused_ranges_disjoint_witness :
  exists oi oj,
    getChunkOffset 1 (planner scenario1) 0 = Some (Ok oi) /\
    getChunkOffset 1 (planner scenario1) 1 = Some (Ok oj) /\
    oi + paddedSize (mkChunk 100 16 false) <= oj /\
    ranges_intersect oi (paddedSize (mkChunk 100 16 false))
                     oj (paddedSize (mkChunk 50 16 false)) = false.
Proof.
  apply (non_reused_ranges_disjoint scenario1 0 1 (mkChunk 100 16 false)
           (mkChunk 50 16 false) 0 0); try reflexivity.
  lia.
Defined.

(** C1 (as stated) fails for a reused chunk: in [{100,16,false},
    {50,16,false}, {8,1,true}] chunk 2 is reused and its padded size, 8,
    does not exceed the 176 bytes reserved before it, yet it starts at
    offset 0 as chunk 0 does and their ranges share bytes. *)
Lemma reused_chunk_overlaps_first :
  pow2_alignments scenario3 = true /\
  chunk0_not_reused scenario3 = true /\
  nth_error scenario3 0 = Some (mkChunk 100 16 false) /\
  nth_error scenario3 2 = Some (mkChunk 8 1 true) /\
  getOffsetBeforeChunk (planner scenario3) 2 = Ok 176 /\
  paddedSize (mkChunk 8 1 true) <= 176 /\
  getChunkOffset 2 (planner scenario3) 0 = Some (Ok 0) /\
  getChunkOffset 2 (planner scenario3) 2 = Some (Ok 0) /\
  ranges_intersect 0 (paddedSize (mkChunk 100 16 false))
                   0 (paddedSize (mkChunk 8 1 true)) = true.
Proof. repeat split; try reflexivity. vm_compute. discriminate. Qed.

(** The padding that aligns a chunk is not added to the running total: in
    [{1,1,false}, {16,16,false}, {4,1,false}] chunk 1 occupies [[16, 32)],
    chunk 2 starts at 17 and the total size is 21. *)
Lemma alignment_gap_not_reserved :
  getChunkOffset 1 (planner gapBeforeSecond) 1 = Some (Ok 16) /\
  getChunkOffset 1 (planner gapBeforeSecond) 2 = Some (Ok 17) /\
  getTotalSize (planner gapBeforeSecond) = Ok 21 /\
  ranges_intersect 16 (paddedSize (mkChunk 16 16 false))
                   17 (paddedSize (mkChunk 4 1 false)) = true.
Proof. repeat split; reflexivity. Qed.

(** ** A chunk of size zero *)

Lemma zeroSize_nth_other (cs : list Chunk) (k j : nat) :
  j <> k -> nth_error (zeroSize k cs) j = nth_error cs j.
Proof.
  revert k j. induction cs as [| c r IH]; intros k j Hjk;
    [destruct k; reflexivity |].
  destruct k as [| k], j as [| j]; cbn [zeroSize nth_error];
    try reflexivity; try congruence.
  apply IH. congruence.
Qed.

Lemma zeroSize_pow2 (cs : list Chunk) (k : nat) :
  pow2_alignments (zeroSize k cs) = pow2_alignments cs.
Proof.
  revert k. induction cs as [| c r IH]; intros k; [destruct k; reflexivity |].
  destruct k as [| k]; cbn [zeroSize pow2_alignments forallb alignment];
    [reflexivity |].
  f_equal. apply IH.
Qed.

Lemma zeroSize_chunk0 (cs : list Chunk) (k : nat) :
  chunk0_not_reused (zeroSize k cs) = chunk0_not_reused cs.
Proof. destruct cs as [| c r], k as [| k]; reflexivity. Qed.

Lemma zeroSize_footprint (cs : list Chunk) (k : nat) :
  footprint_bound (zeroSize k cs) <= footprint_bound cs.
Proof.
  revert k. induction cs as [| c r IH]; intros k; [destruct k; cbn; lia |].
  destruct k as [| k]; cbn [zeroSize]; rewrite !footprint_bound_cons.
  - cbn [sizeBytes alignment]. lia.
  - specialize (IH k). lia.
Qed.

Lemma spec_fold_mono (l : list Chunk) (t t' : Z) :
  t' <= t -> fold_left spec_step l t' <= fold_left spec_step l t.
Proof.
  revert t t'. induction l as [| c l IH]; intros t t' Ht; cbn [fold_left];
    [exact Ht |].
  apply IH. apply spec_step_mono; [exact Ht | lia | reflexivity].
Qed.

(** Setting a size to zero lowers every running total. *)
Lemma zeroSize_fold (cs : list Chunk) (k j : nat) (t t' : Z) :
  pow2_alignments cs = true -> nonneg_sizes cs = true -> t' <= t ->
  fold_left spec_step (firstn j (zeroSize k cs)) t'
    <= fold_left spec_step (firstn j cs) t.
Proof.
  revert k j t t'. induction cs as [| c r IH]; intros k j t t' Hal Hs Ht.
  - destruct k; cbn [zeroSize]; rewrite firstn_nil; exact Ht.
  - apply pow2_alignments_cons in Hal. destruct Hal as [Hc Hal].
    apply nonneg_sizes_cons in Hs. destruct Hs as [Hsc Hs].
    pose proof (paddedSize_bounds c Hc) as Hp.
    destruct j as [| j]; [destruct k; exact Ht |].
    destruct k as [| k]; cbn [zeroSize firstn fold_left].
    + apply spec_fold_mono. apply spec_step_mono; [exact Ht | | reflexivity].
      unfold paddedSize at 1. cbn [sizeBytes alignment].
      rewrite roundUp_zero by now apply valid_alignment_pos. lia.
    + apply IH; try assumption.
      apply spec_step_mono; [exact Ht | lia | reflexivity].
Qed.

(** C9.  With power-of-two alignments, non-negative sizes, a footprint that
    fits [int32_t] and chunk 0 not reused, replacing the size of chunk [k]
    by 0 does not increase the offset of any other chunk [j]. *)
Theorem zero_size_neutral (cs : list Chunk) (k j : nat) (cj : Chunk)
    (fuel : nat) :
  pow2_alignments cs = true -> nonneg_sizes cs = true ->
  fits_int32 cs = true -> chunk0_not_reused cs = true ->
  (k < length cs)%nat -> j <> k -> nth_error cs j = Some cj ->
  exists o o',
    getChunkOffset (S (S fuel)) (planner cs) (Z.of_nat j) = Some (Ok o) /\
    getChunkOffset (S (S fuel)) (planner (zeroSize k cs)) (Z.of_nat j)
      = Some (Ok o') /\
    o' <= o.
Proof.
  intros Hal Hs Hfit H0 Hk Hjk Hj.
  assert (Hal' : pow2_alignments (zeroSize k cs) = true)
    by now rewrite zeroSize_pow2.
  assert (H0' : chunk0_not_reused (zeroSize k cs) = true)
    by now rewrite zeroSize_chunk0.
  assert (Hj' : nth_error (zeroSize k cs) j = Some cj)
    by now rewrite zeroSize_nth_other.
  assert (Hfit' : fits_int32 (zeroSize k cs) = true).
  { unfold fits_int32 in *. apply Z.leb_le. apply Z.leb_le in Hfit.
    pose proof (zeroSize_footprint cs k). lia. }
  destruct (reuseFirstChunk cj) eqn:Hr.
  - exists 0, 0. split; [now apply (getChunkOffset_alias cs j cj) |].
    split; [now apply (getChunkOffset_alias (zeroSize k cs) j cj) | lia].
  - exists (roundUp (spec_offsetBefore cs j) (alignment cj)),
           (roundUp (spec_offsetBefore (zeroSize k cs) j) (alignment cj)).
    split; [now apply getChunkOffset_exact |].
    split; [now apply getChunkOffset_exact |].
    apply roundUp_mono.
    + eapply valid_alignment_pos, pow2_alignments_nth; eassumption.
    + unfold spec_offsetBefore. apply zeroSize_fold; try assumption. lia.
Qed.

Lemma zero_size_neutral_witness :
  exists o o',
    getChunkOffset 2 (planner scenario1) 1 = Some (Ok o) /\
    getChunkOffset 2 (planner (zeroSize 0 scenario1)) 1 = Some (Ok o') /\
    o' <= o.
Proof.
  apply (zero_size_neutral scenario1 0 1 (mkChunk 50 16 false) 0);
    try reflexivity.
  - cbn. lia.
  - discriminate.
Defined.

(** ** The two pools of [KernelTraits] *)

Lemma getChunkOffset_pool (h : MemAllocatorHelper) (i fuel : nat) :
  planner (chunks_of h) = h ->
  pow2_alignments (chunks_of h) = true ->
  chunk0_not_reused (chunks_of h) = true ->
  (i < length (chunks_of h))%nat ->
  returns_offset (getChunkOffset (S (S fuel)) h (Z.of_nat i)).
Proof.
  intros Heq Hal H0 Hi. rewrite <- Heq.
  destruct (nth_error (chunks_of h) i) as [c |] eqn:Hnth;
    [| apply nth_error_None in Hnth; lia].
  destruct (getChunkOffset_defined _ i c fuel Hal H0 Hnth) as (off & Hoff & _).
  now exists off.
Qed.

Ltac bind_inversion H :=
  repeat match type of H with
         | context [bind ?m _] =>
             lazymatch m with
             | context [bind _ _] => fail
             | _ => idtac
             end;
             destruct m eqn:?; cbn [bind] in H; try discriminate H
         end.

Lemma buildSmem_shape `{GemmDecls} (a : KernelTraitsArgs)
    (smem : MemAllocatorHelper) :
  buildSmem a = Ok smem ->
  exists s0 s1 s2 s3 s4 s5 s6,
    smem = mkMemAllocatorHelper
             [(s0, 1024); (s1, 1024); (s2, 1024); (s3, 1024); (s4, 1024);
              (s5, 16); (s6, 16)]
             [false; false; false; doesSplitKUseDsmem (splitK a); false;
              false; false].
Proof.
  intros Hb. unfold buildSmem, smemGmemC in Hb. bind_inversion Hb.
  injection Hb as <-. cbn [emplace fst snd app Z.eqb].
  rewrite andb_true_r, andb_false_r. repeat eexists.
Qed.

Lemma buildTmem_shape `{GemmDecls} (a : KernelTraitsArgs)
    (tmem : MemAllocatorHelper) :
  buildTmem a = Ok tmem ->
  exists t0 t1 t2 t3,
    tmem = mkMemAllocatorHelper [(t0, 2); (t1, 4); (t2, 2); (t3, 2)]
                                [false; false; false; false].
Proof.
  intros Hb. unfold buildTmem, ceilDiv in Hb. bind_inversion Hb.
  all: injection Hb as <-; cbn [emplace fst snd app]; repeat eexists.
Qed.

Lemma div32_defined_ok (x b : Z) :
  div32_defined x b = true -> div32 x b = Ok (Z.quot x b).
Proof. intros Hd. unfold div32. now rewrite Hd. Qed.

Lemma div32_8 (x : Z) : div32 x 8 = Ok (Z.quot x 8).
Proof.
  apply div32_defined_ok. unfold div32_defined. cbn [Z.eqb].
  now rewrite andb_false_r.
Qed.

Lemma div32_64 (x : Z) : div32 x 64 = Ok (Z.quot x 64).
Proof.
  apply div32_defined_ok. unfold div32_defined. cbn [Z.eqb].
  now rewrite andb_false_r.
Qed.

(** The constructor completes when its divisions are defined. *)
Lemma KernelTraits_new_defined `{GemmDecls} (a : KernelTraitsArgs) :
  divisions_defined a = true -> exists traits, KernelTraits_new a = Ok traits.
Proof.
  intros Hd. unfold divisions_defined in Hd.
  apply andb_true_iff in Hd. destruct Hd as [HdD HdA].
  unfold KernelTraits_new, buildSmem, buildTmem, smemGmemC, ceilDiv.
  rewrite !div32_8, !div32_64, (div32_defined_ok _ _ HdD).
  destruct (1 <? numSlicesForSliceK a).
  - apply andb_true_iff in HdA. destruct HdA as [Hd1 Hd2].
    rewrite (div32_defined_ok _ _ Hd1). cbn [bind].
    rewrite (div32_defined_ok _ _ Hd2).
    destruct (useTmaStore a || doesSplitKUseDsmem (splitK a)),
      (dtypeIsBlockFmt (dtypeElt a)); cbn [bind]; eauto.
  - destruct (useTmaStore a || doesSplitKUseDsmem (splitK a)),
      (dtypeIsBlockFmt (dtypeElt a)); cbn [bind]; eauto.
Qed.

(** C10.  The traits that the constructor returns hold 7 chunks in the SMEM
    pool and 4 in the TMEM pool; no chunk is marked as reused except chunk
    3 of the SMEM pool, which is when split-K uses DSMEM; and every named
    accessor returns an offset with at most one delegation to chunk 0. *)
Theorem kernel_traits_pools `{GemmDecls} (a : KernelTraitsArgs)
    (traits : KernelTraits) (fuel : nat) :
  KernelTraits_new a = Ok traits ->
  let smem := mSmemAllocatorHelper traits in
  let tmem := mTmemAllocatorHelper traits in
  (length (mNumBytesAndAlignmentPerSmemChunk smem) = 7 /\
   length (mFirstChunkReuse smem) = 7 /\
   length (mNumBytesAndAlignmentPerSmemChunk tmem) = 4 /\
   length (mFirstChunkReuse tmem) = 4)%nat /\
  mFirstChunkReuse smem =
    [false; false; false; doesSplitKUseDsmem (splitK a); false; false; false] /\
  mFirstChunkReuse tmem = [false; false; false; false] /\
  (returns_offset (getSmemOffsetLoadA (S (S fuel)) traits) /\
   returns_offset (getSmemOffsetLoadB (S (S fuel)) traits) /\
   returns_offset (getSmemOffsetLoadAb (S (S fuel)) traits) /\
   returns_offset (getSmemOffsetLoadShuffleB (S (S fuel)) traits) /\
   returns_offset (getSmemOffsetGmemC (S (S fuel)) traits 0) /\
   returns_offset (getSmemOffsetGmemC (S (S fuel)) traits 1) /\
   returns_offset (getSmemOffsetRowMax (S (S fuel)) traits) /\
   returns_offset (getSmemOffsetSliceK (S (S fuel)) traits)) /\
  (returns_offset (getTmemOffsetD (S (S fuel)) traits) /\
   returns_offset (getTmemOffsetA (S (S fuel)) traits) /\
   returns_offset (getTmemOffsetSfA (S (S fuel)) traits) /\
   returns_offset (getTmemOffsetSfB (S (S fuel)) traits)).
Proof.
  intros Hnew. unfold KernelTraits_new in Hnew.
  destruct (buildSmem a) as [smem0 | |] eqn:Hsmem; try discriminate Hnew.
  destruct (buildTmem a) as [tmem0 | |] eqn:Htmem; try discriminate Hnew.
  cbn [bind] in Hnew. injection Hnew as <-.
  apply buildSmem_shape in Hsmem.
  destruct Hsmem as (s0 & s1 & s2 & s3 & s4 & s5 & s6 & ->).
  apply buildTmem_shape in Htmem. destruct Htmem as (t0 & t1 & t2 & t3 & ->).
  cbn [mSmemAllocatorHelper mTmemAllocatorHelper mFirstChunkReuse
       mNumBytesAndAlignmentPerSmemChunk length].
  split; [repeat split |]. split; [reflexivity |]. split; [reflexivity |].
  unfold getSmemOffsetLoadAb, getSmemOffsetLoadA, getSmemOffsetLoadB,
    getSmemOffsetLoadShuffleB, getSmemOffsetGmemC, getSmemOffsetRowMax,
    getSmemOffsetSliceK, getTmemOffsetD, getTmemOffsetA, getTmemOffsetSfA,
    getTmemOffsetSfB.
  cbn [mSmemAllocatorHelper mTmemAllocatorHelper].
  change (Int32.add 3 0) with (Z.of_nat 3).
  change (Int32.add 3 1) with (Z.of_nat 4).
  repeat split;
    first [ apply (getChunkOffset_pool _ 0 fuel)
          | apply (getChunkOffset_pool _ 1 fuel)
          | apply (getChunkOffset_pool _ 2 fuel)
          | apply (getChunkOffset_pool _ 3 fuel)
          | apply (getChunkOffset_pool _ 4 fuel)
          | apply (getChunkOffset_pool _ 5 fuel)
          | apply (getChunkOffset_pool _ 6 fuel) ];
    try reflexivity; cbn [chunks_of length combine map
                          mNumBytesAndAlignmentPerSmemChunk mFirstChunkReuse];
    lia.
Qed.

Lemma kernel_traits_pools_witness :
  let smem := mSmemAllocatorHelper sampleTraits in
  let tmem := mTmemAllocatorHelper sampleTraits in
  (length (mNumBytesAndAlignmentPerSmemChunk smem) = 7 /\
   length (mFirstChunkReuse smem) = 7 /\
   length (mNumBytesAndAlignmentPerSmemChunk tmem) = 4 /\
   length (mFirstChunkReuse tmem) = 4)%nat /\
  mFirstChunkReuse smem =
    [false; false; false; true; false; false; false] /\
  mFirstChunkReuse tmem = [false; false; false; false] /\
  (returns_offset (getSmemOffsetLoadA 2 sampleTraits) /\
   returns_offset (getSmemOffsetLoadB 2 sampleTraits) /\
   returns_offset (getSmemOffsetLoadAb 2 sampleTraits) /\
   returns_offset (getSmemOffsetLoadShuffleB 2 sampleTraits) /\
   returns_offset (getSmemOffsetGmemC 2 sampleTraits 0) /\
   returns_offset (getSmemOffsetGmemC 2 sampleTraits 1) /\
   returns_offset (getSmemOffsetRowMax 2 sampleTraits) /\
   returns_offset (getSmemOffsetSliceK 2 sampleTraits)) /\
  (returns_offset (getTmemOffsetD 2 sampleTraits) /\
   returns_offset (getTmemOffsetA 2 sampleTraits) /\
   returns_offset (getTmemOffsetSfA 2 sampleTraits) /\
   returns_offset (getTmemOffsetSfB 2 sampleTraits)).
Proof.
  apply (@kernel_traits_pools SampleDecls sampleArgs sampleTraits 0).
  reflexivity.
Defined.

(** ** Edge behaviour of the planner *)

(** X1.  When chunk 0 is marked as reused, [getChunkOffset] never returns
    for chunk 0 nor for any other chunk marked as reused: the call delegates
    to chunk 0, which delegates to itself, whatever the fuel. *)
Theorem reused_first_chunk_never_returns (cs : list Chunk) (i : nat)
    (c0 ci : Chunk) (fuel : nat) :
  nth_error cs 0 = Some c0 -> reuseFirstChunk c0 = true ->
  nth_error cs i = Some ci -> reuseFirstChunk ci = true ->
  getChunkOffset fuel (planner cs) (Z.of_nat i) = None.
Proof.
  intros H0 Hr0 Hi Hri. revert i ci Hi Hri.
  induction fuel as [| fuel IH]; intros i ci Hi Hri; [reflexivity |].
  rewrite (getChunkOffset_reused cs i ci fuel Hi Hri).
  apply (IH 0%nat c0 H0 Hr0).
Qed.

Lemma reused_first_chunk_never_returns_witness :
  getChunkOffset 1000 (planner reusedFirst) 2 = None.
Proof.
  apply (reused_first_chunk_never_returns reusedFirst 2 (mkChunk 64 16 true)
           (mkChunk 8 8 true) 1000); reflexivity.
Defined.

(** X2.  The power-of-two check of [getSizePaddedToAlignment] lets the
    alignment 0 through, and the padded size is then 0 for every size; a
    negative alignment above [INT32_MIN] is rejected. *)
Theorem padded_size_nonpositive_alignment (size a : Z) :
  Int32.min_signed < a <= 0 ->
  getSizePaddedToAlignment size a =
    if a =? 0 then Ok 0 else Raise InvalidAlignment.
Proof.
  intros Ha. unfold getSizePaddedToAlignment, TLLM_CHECK_ERROR.
  assert (Hsub : Int32.sub a 1 = a - 1).
  { unfold Int32.sub. apply wrap_small.
    unfold Int32.min_signed, Int32.max_signed in *. lia. }
  rewrite Hsub. destruct (Z.eqb_spec a 0) as [-> | Hne].
  - cbn [Z.land Z.sub Z.add Z.opp Z.eqb bind Z.lnot Z.pred].
    now rewrite Z.land_0_r.
  - assert (Hneg : Z.land a (a - 1) < 0) by (apply Z.land_neg; lia).
    destruct (Z.eqb_spec (Z.land a (a - 1)) 0) as [Hz | _]; [lia | reflexivity].
Qed.

Lemma padded_size_nonpositive_alignment_witness :
  getSizePaddedToAlignment 100 0 = Ok 0.
Proof.
  apply (padded_size_nonpositive_alignment 100 0).
  unfold Int32.min_signed. lia.
Defined.

Lemma offsetLoop_past_end (cs : list Chunk) (n i : nat) (t : Z) :
  pow2_alignments cs = true ->
  (i <= length cs)%nat -> (length cs < i + n)%nat ->
  offsetLoop (planner cs) n (Z.of_nat i) t = Undefined.
Proof.
  intros Hal. revert i t. induction n as [| n IH]; intros i t Hi Hn; [lia |].
  cbn [offsetLoop]. rewrite vec_get_sizes, vec_get_reuse.
  destruct (nth_error cs i) as [c |] eqn:Hnth; [| reflexivity].
  assert (Hlt : (i < length cs)%nat)
    by (apply nth_error_Some; now rewrite Hnth).
  cbn [bind fst snd].
  destruct (getSizePaddedToAlignment_valid (sizeBytes c) _
              (pow2_alignments_nth _ _ _ Hal Hnth)) as (p & Hp & _).
  rewrite Hp. cbn [bind].
  replace (Z.of_nat i + 1) with (Z.of_nat (S i)) by lia.
  rewrite !IH by lia.
  destruct (reuseFirstChunk c && (t <? p)); [reflexivity |].
  destruct (negb (reuseFirstChunk c)); reflexivity.
Qed.

(** X3.  [getOffsetBeforeChunk jj] does not check [jj]: it is 0 for every
    [jj <= 0], and with power-of-two alignments it reads past the end of the
    vectors, with no defined behaviour, for every [jj] above the number of
    chunks. *)
Theorem offset_before_outside_range (cs : list Chunk) (jj : Z) :
  pow2_alignments cs = true ->
  (jj <= 0 -> getOffsetBeforeChunk (planner cs) jj = Ok 0) /\
  (Z.of_nat (length cs) < jj ->
   getOffsetBeforeChunk (planner cs) jj = Undefined).
Proof.
  intros Hal. unfold getOffsetBeforeChunk. split.
  - intros Hjj. replace (Z.to_nat jj) with 0%nat by lia. reflexivity.
  - intros Hjj. apply (offsetLoop_past_end cs (Z.to_nat jj) 0 0); try assumption;
      lia.
Qed.

Lemma offset_before_outside_range_witness :
  (-1 <= 0 -> getOffsetBeforeChunk (planner scenario1) (-1) = Ok 0) /\
  (Z.of_nat 2 < 3 -> getOffsetBeforeChunk (planner scenario1) 3 = Undefined) .
Proof.
  split.
  - apply (offset_before_outside_range scenario1 (-1)). reflexivity.
  - apply (offset_before_outside_range scenario1 3). reflexivity.
Defined.

(** ** The total size *)

Lemma spec_offsetBefore_all (cs : list Chunk) :
  spec_offsetBefore cs (length cs) = fold_left spec_step cs 0.
Proof. unfold spec_offsetBefore. now rewrite firstn_all. Qed.

Lemma nth_error_length {A : Type} (l : list A) (i : nat) (x : A) :
  nth_error l i = Some x -> (i < length l)%nat.
Proof. intros Hnth. apply nth_error_Some. now rewrite Hnth. Qed.

Lemma paddedSize_nonneg (cs : list Chunk) (i : nat) (c : Chunk) :
  pow2_alignments cs = true -> nonneg_sizes cs = true ->
  nth_error cs i = Some c -> 0 <= paddedSize c.
Proof.
  intros Hal Hs Hnth.
  pose proof (paddedSize_bounds c (pow2_alignments_nth _ _ _ Hal Hnth)).
  pose proof (nonneg_sizes_nth _ _ _ Hs Hnth). lia.
Qed.

Lemma spec_step_ge_padded (t : Z) (c : Chunk) :
  0 <= t -> paddedSize c <= spec_step t c.
Proof.
  intros Ht. unfold spec_step. destruct (reuseFirstChunk c); cbn [andb negb].
  - destruct (Z.ltb_spec t (paddedSize c)); lia.
  - lia.
Qed.

Lemma spec_fold_nonReused (l : list Chunk) (t : Z) :
  pow2_alignments l = true -> nonneg_sizes l = true -> 0 <= t ->
  t + nonReusedPadded l <= fold_left spec_step l t.
Proof.
  revert t. induction l as [| c l IH]; intros t Hal Hs Ht;
    cbn [fold_left nonReusedPadded fold_right]; [lia |].
  fold (nonReusedPadded l).
  apply pow2_alignments_cons in Hal. destruct Hal as [Hc Hal].
  apply nonneg_sizes_cons in Hs. destruct Hs as [Hsc Hs].
  pose proof (paddedSize_bounds c Hc) as Hp.
  pose proof (spec_step_range t c Ht ltac:(lia)) as Hstep.
  specialize (IH (spec_step t c) Hal Hs ltac:(lia)).
  revert IH Hstep. unfold spec_step.
  destruct (reuseFirstChunk c); cbn [andb negb]; [| lia].
  destruct (Z.ltb_spec t (paddedSize c)); lia.
Qed.

(** X4.  With power-of-two alignments, non-negative sizes and a footprint
    that fits [int32_t], the total size is at least the padded size of every
    chunk, reused or not, and at least the sum of the padded sizes of the
    chunks that are not reused. *)
Theorem total_size_covers_chunks (cs : list Chunk) (i : nat) (c : Chunk) :
  pow2_alignments cs = true -> nonneg_sizes cs = true ->
  fits_int32 cs = true -> nth_error cs i = Some c ->
  exists t, getTotalSize (planner cs) = Ok t /\
            paddedSize c <= t /\ nonReusedPadded cs <= t.
Proof.
  intros Hal Hs Hfit Hnth. exists (spec_offsetBefore cs (length cs)).
  split; [now apply getTotalSize_exact |]. split.
  - pose proof (nth_error_length _ _ _ Hnth) as Hlt.
    pose proof (spec_offsetBefore_mono cs (S i) (length cs) Hal Hs ltac:(lia))
      as Hmono.
    rewrite (spec_offsetBefore_succ cs i c Hnth) in Hmono.
    pose proof (spec_step_ge_padded (spec_offsetBefore cs i) c
                  (spec_offsetBefore_nonneg cs i Hal Hs)). lia.
  - rewrite spec_offsetBefore_all.
    pose proof (spec_fold_nonReused cs 0 Hal Hs ltac:(lia)). lia.
Qed.

Lemma total_size_covers_chunks_witness :
  exists t, getTotalSize (planner scenario2) = Ok t /\
            paddedSize (mkChunk 1024 1 true) <= t /\
            nonReusedPadded scenario2 <= t.
Proof.
  apply (total_size_covers_chunks scenario2 2 (mkChunk 1024 1 true));
    reflexivity.
Defined.

(** X5.  Appending a chunk to a sequence: the total size grows by the padded
    size of the chunk when it is not reused, and becomes the larger of the
    former total and the padded size when it is reused. *)
Theorem total_size_append (cs : list Chunk) (c : Chunk) :
  pow2_alignments (cs ++ [c]) = true -> fits_int32 (cs ++ [c]) = true ->
  exists t,
    getTotalSize (planner cs) = Ok t /\
    getTotalSize (planner (cs ++ [c])) =
      Ok (if reuseFirstChunk c then Z.max t (paddedSize c)
          else t + paddedSize c).
Proof.
  intros Hal Hfit.
  destruct (fits_int32_app cs [c] Hal Hfit) as (Halc & _ & Hsum & _ & Hfc).
  assert (Hfitc : fits_int32 cs = true) by (apply Z.leb_le; lia).
  exists (spec_offsetBefore cs (length cs)).
  split; [now apply getTotalSize_exact |].
  rewrite getTotalSize_exact by assumption. f_equal.
  rewrite !spec_offsetBefore_all, fold_left_app. cbn [fold_left].
  set (t := fold_left spec_step cs 0).
  unfold spec_step. destruct (reuseFirstChunk c); cbn [andb negb];
    [| reflexivity].
  destruct (Z.ltb_spec t (paddedSize c)); lia.
Qed.

Lemma total_size_append_witness :
  exists t,
    getTotalSize (planner scenario1) = Ok t /\
    getTotalSize (planner scenario3) =
      Ok (Z.max t (paddedSize (mkChunk 8 1 true))).
Proof.
  apply (total_size_append scenario1 (mkChunk 8 1 true)); reflexivity.
Defined.

Lemma getChunkOffset_value (cs : list Chunk) (i : nat) (c : Chunk)
    (fuel : nat) :
  pow2_alignments cs = true -> fits_int32 cs = true ->
  chunk0_not_reused cs = true -> nth_error cs i = Some c ->
  getChunkOffset (S (S fuel)) (planner cs) (Z.of_nat i) =
    Some (Ok (if reuseFirstChunk c then 0
              else roundUp (spec_offsetBefore cs i) (alignment c))).
Proof.
  intros Hal Hfit H0 Hnth. destruct (reuseFirstChunk c) eqn:Hr.
  - now apply (getChunkOffset_alias cs i c).
  - now apply getChunkOffset_exact.
Qed.

(** X6.  A chunk lies within the total size when it is marked as reused, or
    when [getOffsetBeforeChunk] is already a multiple of its alignment: its
    offset is not negative and its offset plus its padded size is at most
    [getTotalSize]. *)
Theorem chunk_within_total (cs : list Chunk) (i : nat) (c : Chunk)
    (fuel : nat) :
  pow2_alignments cs = true -> nonneg_sizes cs = true ->
  fits_int32 cs = true -> chunk0_not_reused cs = true ->
  nth_error cs i = Some c ->
  (reuseFirstChunk c = true \/
   exists b, getOffsetBeforeChunk (planner cs) (Z.of_nat i) = Ok b /\
             b mod alignment c = 0) ->
  exists o t,
    getChunkOffset (S (S fuel)) (planner cs) (Z.of_nat i) = Some (Ok o) /\
    getTotalSize (planner cs) = Ok t /\
    0 <= o /\ o + paddedSize c <= t.
Proof.
  intros Hal Hs Hfit H0 Hnth Hcase.
  pose proof (nth_error_length _ _ _ Hnth) as Hlt.
  pose proof (valid_alignment_pos _ (pow2_alignments_nth _ _ _ Hal Hnth)) as Ha.
  pose proof (spec_offsetBefore_mono cs (S i) (length cs) Hal Hs ltac:(lia))
    as Hmono.
  rewrite (spec_offsetBefore_succ cs i c Hnth) in Hmono.
  pose proof (spec_offsetBefore_nonneg cs i Hal Hs) as Hnn.
  exists (if reuseFirstChunk c then 0
          else roundUp (spec_offsetBefore cs i) (alignment c)),
         (spec_offsetBefore cs (length cs)).
  split; [now apply getChunkOffset_value |].
  split; [now apply getTotalSize_exact |].
  destruct Hcase as [Hr | (b & Hb & Hmod)].
  - rewrite Hr.
    pose proof (spec_step_ge_padded (spec_offsetBefore cs i) c Hnn).
    pose proof (paddedSize_nonneg cs i c Hal Hs Hnth). lia.
  - rewrite getOffsetBeforeChunk_exact in Hb by (assumption || lia).
    injection Hb as <-.
    destruct (reuseFirstChunk c) eqn:Hr.
    + pose proof (spec_step_ge_padded (spec_offsetBefore cs i) c Hnn).
      pose proof (paddedSize_nonneg cs i c Hal Hs Hnth). lia.
    + rewrite (roundUp_aligned _ _ Ha Hmod).
      unfold spec_step in Hmono. rewrite Hr in Hmono.
      cbn [andb negb] in Hmono. lia.
Qed.

Lemma chunk_within_total_witness :
  exists o t,
    getChunkOffset 2 (planner scenario2) 2 = Some (Ok o) /\
    getTotalSize (planner scenario2) = Ok t /\
    0 <= o /\ o + paddedSize (mkChunk 1024 1 true) <= t.
Proof.
  apply (chunk_within_total scenario2 2 (mkChunk 1024 1 true) 0);
    try reflexivity.
  now left.
Defined.

(** X7.  The padding that [getChunkOffset] inserts in front of a chunk is not
    counted by [getOffsetBeforeChunk]: when the last chunk is not reused and
    the total before it is not a multiple of its alignment, the chunk ends
    beyond [getTotalSize]. *)
Theorem last_chunk_beyond_total (pre : list Chunk) (c : Chunk) (b : Z)
    (fuel : nat) :
  pow2_alignments (pre ++ [c]) = true -> fits_int32 (pre ++ [c]) = true ->
  reuseFirstChunk c = false ->
  getOffsetBeforeChunk (planner (pre ++ [c])) (Z.of_nat (length pre)) = Ok b ->
  b mod alignment c <> 0 ->
  exists o t,
    getChunkOffset (S fuel) (planner (pre ++ [c])) (Z.of_nat (length pre))
      = Some (Ok o) /\
    getTotalSize (planner (pre ++ [c])) = Ok t /\
    t < o + paddedSize c.
Proof.
  intros Hal Hfit Hr Hb Hmod.
  assert (Hnth : nth_error (pre ++ [c]) (length pre) = Some c).
  { rewrite nth_error_app2 by lia. now rewrite Nat.sub_diag. }
  pose proof (valid_alignment_pos _ (pow2_alignments_nth _ _ _ Hal Hnth)) as Ha.
  rewrite getOffsetBeforeChunk_exact in Hb
    by (try assumption; rewrite length_app; lia).
  injection Hb as <-.
  exists (roundUp (spec_offsetBefore (pre ++ [c]) (length pre)) (alignment c)),
         (spec_offsetBefore (pre ++ [c]) (length (pre ++ [c]))).
  split; [now apply getChunkOffset_exact |].
  split; [now apply getTotalSize_exact |].
  replace (length (pre ++ [c])) with (S (length pre))
    by (rewrite length_app; cbn; lia).
  rewrite (spec_offsetBefore_succ _ _ _ Hnth).
  unfold spec_step. rewrite Hr. cbn [andb negb].
  set (ob := spec_offsetBefore (pre ++ [c]) (length pre)) in *.
  pose proof (roundUp_bounds ob _ Ha) as Hup.
  assert (Hne : roundUp ob (alignment c) <> ob).
  { intros Heq. apply Hmod. rewrite <- Heq. apply roundUp_multiple. lia. }
  lia.
Qed.

Lemma last_chunk_beyond_total_witness :
  exists o t,
    getChunkOffset 1 (planner [mkChunk 1 1 false; mkChunk 16 16 false]) 1
      = Some (Ok o) /\
    getTotalSize (planner [mkChunk 1 1 false; mkChunk 16 16 false]) = Ok t /\
    t < o + paddedSize (mkChunk 16 16 false).
Proof.
  apply (last_chunk_beyond_total [mkChunk 1 1 false] (mkChunk 16 16 false)
           1 0); try reflexivity.
  discriminate.
Defined.

(** ** The order of the chunks *)

Lemma roundUp_pos (x a : Z) : 0 < a -> 0 < x -> a <= roundUp x a.
Proof.
  intros Ha Hx. pose proof (roundUp_bounds x a Ha) as Hb. unfold roundUp in *.
  assert (Hq : 0 < (x + a - 1) / a) by nia. nia.
Qed.

(** X8.  A chunk that is not reused and not empty starts strictly before
    every later chunk that is not reused. *)
Theorem nonempty_chunk_before_later (cs : list Chunk) (i j : nat)
    (ci cj : Chunk) (fuel : nat) :
  pow2_alignments cs = true -> nonneg_sizes cs = true ->
  fits_int32 cs = true -> (i < j)%nat ->
  nth_error cs i = Some ci -> nth_error cs j = Some cj ->
  reuseFirstChunk ci = false -> reuseFirstChunk cj = false ->
  0 < sizeBytes ci ->
  exists oi oj,
    getChunkOffset (S fuel) (planner cs) (Z.of_nat i) = Some (Ok oi) /\
    getChunkOffset (S fuel) (planner cs) (Z.of_nat j) = Some (Ok oj) /\
    oi < oj.
Proof.
  intros Hal Hs Hfit Hij Hi Hj Hri Hrj Hpos.
  pose proof (valid_alignment_pos _ (pow2_alignments_nth _ _ _ Hal Hi)) as Hai.
  pose proof (valid_alignment_pos _ (pow2_alignments_nth _ _ _ Hal Hj)) as Haj.
  exists (roundUp (spec_offsetBefore cs i) (alignment ci)),
         (roundUp (spec_offsetBefore cs j) (alignment cj)).
  split; [now apply getChunkOffset_exact |].
  split; [now apply getChunkOffset_exact |].
  pose proof (roundUp_bounds (spec_offsetBefore cs i) _ Hai) as Hupi.
  pose proof (roundUp_bounds (spec_offsetBefore cs j) _ Haj) as Hupj.
  pose proof (roundUp_pos (sizeBytes ci) _ Hai Hpos) as Hp.
  fold (paddedSize ci) in Hp.
  pose proof (spec_offsetBefore_mono cs (S i) j Hal Hs ltac:(lia)) as Hmono.
  rewrite (spec_offsetBefore_succ cs i ci Hi) in Hmono.
  unfold spec_step in Hmono. rewrite Hri in Hmono.
  cbn [andb negb] in Hmono. lia.
Qed.

Lemma nonempty_chunk_before_later_witness :
  exists oi oj,
    getChunkOffset 1 (planner gapBeforeSecond) 1 = Some (Ok oi) /\
    getChunkOffset 1 (planner gapBeforeSecond) 2 = Some (Ok oj) /\
    oi < oj.
Proof.
  apply (nonempty_chunk_before_later gapBeforeSecond 1 2
           (mkChunk 16 16 false) (mkChunk 4 1 false) 0); try reflexivity.
  lia.
Defined.

Lemma valid_alignment_le_divide (a a' : Z) :
  valid_alignment a = true -> valid_alignment a' = true -> a' <= a ->
  (a' | a).
Proof.
  intros Ha Ha' Hle.
  apply valid_alignment_inv in Ha. destruct Ha as (k & Hk & -> & _).
  apply valid_alignment_inv in Ha'. destruct Ha' as (k' & Hk' & -> & _).
  assert (Hkk : k' <= k) by (apply (Z.pow_le_mono_r_iff 2); lia).
  exists (2 ^ (k - k')). rewrite <- Z.pow_add_r by lia. f_equal. lia.
Qed.

Lemma paddedSize_divide (c : Chunk) :
  valid_alignment (alignment c) = true -> (alignment c | paddedSize c).
Proof.
  intros Hv. unfold paddedSize, roundUp. apply Z.divide_factor_r.
Qed.

Lemma spec_step_divide (a t : Z) (c : Chunk) :
  (a | t) -> (a | paddedSize c) -> (a | spec_step t c).
Proof.
  intros Ht Hp. unfold spec_step.
  destruct (reuseFirstChunk c && (t <? paddedSize c)); [exact Hp |].
  destruct (negb (reuseFirstChunk c)); [now apply Z.divide_add_r | exact Ht].
Qed.

(** With alignments that never increase, every running total is a multiple
    of the alignment of the chunk that comes next. *)
Lemma descend_divide (l : list Chunk) (a t : Z) (i : nat) (c : Chunk) :
  pow2_alignments l = true -> valid_alignment a = true ->
  alignments_descend a l = true -> (a | t) ->
  nth_error l i = Some c ->
  (alignment c | fold_left spec_step (firstn i l) t).
Proof.
  revert a t i. induction l as [| d r IH]; intros a t i Hal Ha Hd Ht Hnth;
    [destruct i; discriminate |].
  apply pow2_alignments_cons in Hal. destruct Hal as [Hvd Hal].
  cbn [alignments_descend] in Hd. apply andb_true_iff in Hd.
  destruct Hd as [Hle Hd]. apply Z.leb_le in Hle.
  pose proof (valid_alignment_le_divide a _ Ha Hvd Hle) as Hdiv.
  destruct i as [| i]; cbn [nth_error firstn fold_left] in *.
  - injection Hnth as <-. now apply (Z.divide_trans _ a).
  - apply (IH (alignment d)); try assumption.
    apply spec_step_divide.
    + now apply (Z.divide_trans _ a).
    + now apply paddedSize_divide.
Qed.

Lemma descending_no_gap (cs : list Chunk) (i : nat) (c : Chunk) :
  pow2_alignments cs = true -> alignments_descending cs = true ->
  nth_error cs i = Some c ->
  spec_offsetBefore cs i mod alignment c = 0.
Proof.
  intros Hal Hd Hnth.
  pose proof (valid_alignment_pos _ (pow2_alignments_nth _ _ _ Hal Hnth)) as Ha.
  apply Z.mod_divide; [lia |]. unfold spec_offsetBefore.
  destruct cs as [| c0 r]; [destruct i; discriminate |].
  apply (descend_divide (c0 :: r) (alignment c0)); try assumption.
  - now apply pow2_alignments_cons in Hal.
  - apply Z.divide_0_r.
Qed.

(** Chunks that are not reused, the first one starting at its
    [offsetBefore]: the second starts after the first ends and ends within
    the total. *)
Lemma no_gap_layout (cs : list Chunk) (i j : nat) (ci cj : Chunk) :
  pow2_alignments cs = true -> nonneg_sizes cs = true -> (i < j)%nat ->
  nth_error cs i = Some ci -> nth_error cs j = Some cj ->
  reuseFirstChunk ci = false -> reuseFirstChunk cj = false ->
  spec_offsetBefore cs i mod alignment ci = 0 ->
  spec_offsetBefore cs j mod alignment cj = 0 ->
  let oi := roundUp (spec_offsetBefore cs i) (alignment ci) in
  let oj := roundUp (spec_offsetBefore cs j) (alignment cj) in
  oi + paddedSize ci <= oj /\
  oj + paddedSize cj <= spec_offsetBefore cs (length cs) /\
  ranges_intersect oi (paddedSize ci) oj (paddedSize cj) = false.
Proof.
  intros Hal Hs Hij Hi Hj Hri Hrj Hmi Hmj oi oj. subst oi oj.
  pose proof (valid_alignment_pos _ (pow2_alignments_nth _ _ _ Hal Hi)) as Hai.
  pose proof (valid_alignment_pos _ (pow2_alignments_nth _ _ _ Hal Hj)) as Haj.
  rewrite (roundUp_aligned _ _ Hai Hmi), (roundUp_aligned _ _ Haj Hmj).
  pose proof (nth_error_length _ _ _ Hj) as Hlt.
  pose proof (spec_offsetBefore_mono cs (S i) j Hal Hs ltac:(lia)) as Hm1.
  pose proof (spec_offsetBefore_mono cs (S j) (length cs) Hal Hs ltac:(lia))
    as Hm2.
  rewrite (spec_offsetBefore_succ cs i ci Hi) in Hm1.
  rewrite (spec_offsetBefore_succ cs j cj Hj) in Hm2.
  unfold spec_step in Hm1, Hm2. rewrite Hri in Hm1. rewrite Hrj in Hm2.
  cbn [andb negb] in Hm1, Hm2.
  repeat split; try lia. unfold ranges_intersect. apply Z.ltb_ge. lia.
Qed.

(** X9.  When the alignments never increase along the sequence, no padding
    is inserted in front of any chunk: two chunks that are not reused never
    overlap, and the later one ends within [getTotalSize]. *)
Theorem descending_alignments_layout (cs : list Chunk) (i j : nat)
    (ci cj : Chunk) (fuel : nat) :
  pow2_alignments cs = true -> nonneg_sizes cs = true ->
  fits_int32 cs = true -> alignments_descending cs = true ->
  (i < j)%nat ->
  nth_error cs i = Some ci -> nth_error cs j = Some cj ->
  reuseFirstChunk ci = false -> reuseFirstChunk cj = false ->
  exists oi oj t,
    getChunkOffset (S fuel) (planner cs) (Z.of_nat i) = Some (Ok oi) /\
    getChunkOffset (S fuel) (planner cs) (Z.of_nat j) = Some (Ok oj) /\
    getTotalSize (planner cs) = Ok t /\
    oi + paddedSize ci <= oj /\ oj + paddedSize cj <= t /\
    ranges_intersect oi (paddedSize ci) oj (paddedSize cj) = false.
Proof.
  intros Hal Hs Hfit Hd Hij Hi Hj Hri Hrj.
  exists (roundUp (spec_offsetBefore cs i) (alignment ci)),
         (roundUp (spec_offsetBefore cs j) (alignment cj)),
         (spec_offsetBefore cs (length cs)).
  split; [now apply getChunkOffset_exact |].
  split; [now apply getChunkOffset_exact |].
  split; [now apply getTotalSize_exact |].
  apply no_gap_layout; try assumption; now apply descending_no_gap.
Qed.

Lemma descending_alignments_layout_witness :
  exists oi oj t,
    getChunkOffset 1 (planner scenario3) 0 = Some (Ok oi) /\
    getChunkOffset 1 (planner scenario3) 1 = Some (Ok oj) /\
    getTotalSize (planner scenario3) = Ok t /\
    oi + paddedSize (mkChunk 100 16 false) <= oj /\
    oj + paddedSize (mkChunk 50 16 false) <= t /\
    ranges_intersect oi (paddedSize (mkChunk 100 16 false))
                     oj (paddedSize (mkChunk 50 16 false)) = false.
Proof.
  apply (descending_alignments_layout scenario3 0 1 (mkChunk 100 16 false)
           (mkChunk 50 16 false) 0); try reflexivity.
  lia.
Defined.

(** ** The pools of [KernelTraits], continued *)

Lemma getTotalSize_pool (h : MemAllocatorHelper) :
  planner (chunks_of h) = h ->
  pow2_alignments (chunks_of h) = true ->
  Z.of_nat (length (chunks_of h)) <= Int32.max_signed ->
  exists t, getTotalSize h = Ok t.
Proof.
  intros Heq Hal Hlen. rewrite <- Heq. unfold getTotalSize.
  cbn [planner mNumBytesAndAlignmentPerSmemChunk]. rewrite length_map.
  rewrite wrap_small by (unfold Int32.min_signed; lia).
  rewrite getOffsetBeforeChunk_planner, firstn_all by lia.
  now apply offsetFold_ok.
Qed.

Lemma KernelTraits_new_shape `{GemmDecls} (a : KernelTraitsArgs)
    (traits : KernelTraits) :
  KernelTraits_new a = Ok traits ->
  exists s0 s1 s2 s3 s4 s5 s6 t0 t1 t2 t3,
    traits =
      mkKernelTraits
        (mkMemAllocatorHelper
           [(s0, 1024); (s1, 1024); (s2, 1024); (s3, 1024); (s4, 1024);
            (s5, 16); (s6, 16)]
           [false; false; false; doesSplitKUseDsmem (splitK a); false;
            false; false])
        (mkMemAllocatorHelper [(t0, 2); (t1, 4); (t2, 2); (t3, 2)]
                              [false; false; false; false]).
Proof.
  intros Hnew. unfold KernelTraits_new in Hnew.
  destruct (buildSmem a) as [smem0 | |] eqn:Hsmem; try discriminate Hnew.
  destruct (buildTmem a) as [tmem0 | |] eqn:Htmem; try discriminate Hnew.
  cbn [bind] in Hnew. injection Hnew as <-.
  apply buildSmem_shape in Hsmem.
  destruct Hsmem as (s0 & s1 & s2 & s3 & s4 & s5 & s6 & ->).
  apply buildTmem_shape in Htmem. destruct Htmem as (t0 & t1 & t2 & t3 & ->).
  now exists s0, s1, s2, s3, s4, s5, s6, t0, t1, t2, t3.
Qed.

(** X10.  For every traits that the constructor returns, [getSmemBufferSize]
    and [getTmemBufferSize] return a size: they raise no error and read no
    vector out of its bounds, whatever the configuration. *)
Theorem buffer_sizes_returned `{GemmDecls} (a : KernelTraitsArgs)
    (traits : KernelTraits) :
  KernelTraits_new a = Ok traits ->
  (exists s, getSmemBufferSize traits = Ok s) /\
  (exists t, getTmemBufferSize traits = Ok t).
Proof.
  intros Hnew. apply KernelTraits_new_shape in Hnew.
  destruct Hnew as (s0 & s1 & s2 & s3 & s4 & s5 & s6 & t0 & t1 & t2 & t3 & ->).
  unfold getSmemBufferSize, getTmemBufferSize.
  cbn [mSmemAllocatorHelper mTmemAllocatorHelper].
  split; apply getTotalSize_pool; try reflexivity;
    cbn [chunks_of length combine map mNumBytesAndAlignmentPerSmemChunk
         mFirstChunkReuse]; unfold Int32.max_signed; lia.
Qed.

Lemma buffer_sizes_returned_witness :
  (exists s, getSmemBufferSize sampleTraits = Ok s) /\
  (exists t, getTmemBufferSize sampleTraits = Ok t).
Proof.
  apply (@buffer_sizes_returned SampleDecls sampleArgs sampleTraits).
  reflexivity.
Defined.

Lemma getChunkOffset_pool_aligned (h : MemAllocatorHelper) (i : nat)
    (c : Chunk) (fuel : nat) :
  planner (chunks_of h) = h ->
  pow2_alignments (chunks_of h) = true ->
  chunk0_not_reused (chunks_of h) = true ->
  nth_error (chunks_of h) i = Some c ->
  returns_multiple_of (alignment c)
    (getChunkOffset (S (S fuel)) h (Z.of_nat i)).
Proof.
  intros Heq Hal H0 Hnth. rewrite <- Heq.
  exact (getChunkOffset_defined _ i c fuel Hal H0 Hnth).
Qed.

(** X11.  For every traits that the constructor returns, the SMEM offsets of
    load A, load B, shuffled B and the two GmemC buffers are multiples of
    1024, those of rowMax and sliceK are multiples of 16, and the TMEM
    offsets of D, A, SfA and SfB are multiples of 2, 4, 2 and 2, whatever
    the sizes of the chunks. *)
Theorem accessor_offsets_aligned `{GemmDecls} (a : KernelTraitsArgs)
    (traits : KernelTraits) (fuel : nat) :
  KernelTraits_new a = Ok traits ->
  (returns_multiple_of 1024 (getSmemOffsetLoadA (S (S fuel)) traits) /\
   returns_multiple_of 1024 (getSmemOffsetLoadB (S (S fuel)) traits) /\
   returns_multiple_of 1024 (getSmemOffsetLoadShuffleB (S (S fuel)) traits) /\
   returns_multiple_of 1024 (getSmemOffsetGmemC (S (S fuel)) traits 0) /\
   returns_multiple_of 1024 (getSmemOffsetGmemC (S (S fuel)) traits 1) /\
   returns_multiple_of 16 (getSmemOffsetRowMax (S (S fuel)) traits) /\
   returns_multiple_of 16 (getSmemOffsetSliceK (S (S fuel)) traits)) /\
  (returns_multiple_of 2 (getTmemOffsetD (S (S fuel)) traits) /\
   returns_multiple_of 4 (getTmemOffsetA (S (S fuel)) traits) /\
   returns_multiple_of 2 (getTmemOffsetSfA (S (S fuel)) traits) /\
   returns_multiple_of 2 (getTmemOffsetSfB (S (S fuel)) traits)).
Proof.
  intros Hnew. apply KernelTraits_new_shape in Hnew.
  destruct Hnew as (s0 & s1 & s2 & s3 & s4 & s5 & s6 & t0 & t1 & t2 & t3 & ->).
  unfold getSmemOffsetLoadA, getSmemOffsetLoadB, getSmemOffsetLoadShuffleB,
    getSmemOffsetGmemC, getSmemOffsetRowMax, getSmemOffsetSliceK,
    getTmemOffsetD, getTmemOffsetA, getTmemOffsetSfA, getTmemOffsetSfB.
  cbn [mSmemAllocatorHelper mTmemAllocatorHelper].
  change (Int32.add 3 0) with (Z.of_nat 3).
  change (Int32.add 3 1) with (Z.of_nat 4).
  repeat split.
  - now apply (getChunkOffset_pool_aligned _ 0 (mkChunk s0 1024 false) fuel).
  - now apply (getChunkOffset_pool_aligned _ 1 (mkChunk s1 1024 false) fuel).
  - now apply (getChunkOffset_pool_aligned _ 2 (mkChunk s2 1024 false) fuel).
  - now apply (getChunkOffset_pool_aligned _ 3
                 (mkChunk s3 1024 (doesSplitKUseDsmem (splitK a))) fuel).
  - now apply (getChunkOffset_pool_aligned _ 4 (mkChunk s4 1024 false) fuel).
  - now apply (getChunkOffset_pool_aligned _ 5 (mkChunk s5 16 false) fuel).
  - now apply (getChunkOffset_pool_aligned _ 6 (mkChunk s6 16 false) fuel).
  - now apply (getChunkOffset_pool_aligned _ 0 (mkChunk t0 2 false) fuel).
  - now apply (getChunkOffset_pool_aligned _ 1 (mkChunk t1 4 false) fuel).
  - now apply (getChunkOffset_pool_aligned _ 2 (mkChunk t2 2 false) fuel).
  - now apply (getChunkOffset_pool_aligned _ 3 (mkChunk t3 2 false) fuel).
Qed.

Lemma accessor_offsets_aligned_witness :
  (returns_multiple_of 1024 (getSmemOffsetLoadA 2 sampleTraits) /\
   returns_multiple_of 1024 (getSmemOffsetLoadB 2 sampleTraits) /\
   returns_multiple_of 1024 (getSmemOffsetLoadShuffleB 2 sampleTraits) /\
   returns_multiple_of 1024 (getSmemOffsetGmemC 2 sampleTraits 0) /\
   returns_multiple_of 1024 (getSmemOffsetGmemC 2 sampleTraits 1) /\
   returns_multiple_of 16 (getSmemOffsetRowMax 2 sampleTraits) /\
   returns_multiple_of 16 (getSmemOffsetSliceK 2 sampleTraits)) /\
  (returns_multiple_of 2 (getTmemOffsetD 2 sampleTraits) /\
   returns_multiple_of 4 (getTmemOffsetA 2 sampleTraits) /\
   returns_multiple_of 2 (getTmemOffsetSfA 2 sampleTraits) /\
   returns_multiple_of 2 (getTmemOffsetSfB 2 sampleTraits)).
Proof.
  apply (@accessor_offsets_aligned SampleDecls sampleArgs sampleTraits 0).
  reflexivity.
Defined.

(** X12.  For every traits that the constructor returns, load A and the TMEM
    matrix D start at offset 0, and with split-K in DSMEM the first GmemC
    buffer starts at offset 0 as well, on top of load A. *)
Theorem first_chunks_at_zero `{GemmDecls} (a : KernelTraitsArgs)
    (traits : KernelTraits) (fuel : nat) :
  KernelTraits_new a = Ok traits ->
  getSmemOffsetLoadA (S fuel) traits = Some (Ok 0) /\
  getSmemOffsetLoadAb (S fuel) traits = Some (Ok 0) /\
  getTmemOffsetD (S fuel) traits = Some (Ok 0) /\
  (doesSplitKUseDsmem (splitK a) = true ->
   getSmemOffsetGmemC (S (S fuel)) traits 0 = Some (Ok 0)).
Proof.
  intros Hnew. apply KernelTraits_new_shape in Hnew.
  destruct Hnew as (s0 & s1 & s2 & s3 & s4 & s5 & s6 & t0 & t1 & t2 & t3 & ->).
  unfold getSmemOffsetLoadAb, getSmemOffsetLoadA, getTmemOffsetD,
    getSmemOffsetGmemC.
  cbn [mSmemAllocatorHelper mTmemAllocatorHelper].
  split; [reflexivity |]. split; [reflexivity |]. split; [reflexivity |].
  intros Hd. change (Int32.add 3 0) with (Z.of_nat 3).
  apply (getChunkOffset_alias
           [mkChunk s0 1024 false; mkChunk s1 1024 false;
            mkChunk s2 1024 false;
            mkChunk s3 1024 (doesSplitKUseDsmem (splitK a));
            mkChunk s4 1024 false; mkChunk s5 16 false;
            mkChunk s6 16 false] 3
           (mkChunk s3 1024 (doesSplitKUseDsmem (splitK a))) fuel);
    try reflexivity.
  exact Hd.
Qed.

Lemma first_chunks_at_zero_witness :
  getSmemOffsetLoadA 1 sampleTraits = Some (Ok 0) /\
  getSmemOffsetLoadAb 1 sampleTraits = Some (Ok 0) /\
  getTmemOffsetD 1 sampleTraits = Some (Ok 0) /\
  (true = true -> getSmemOffsetGmemC 2 sampleTraits 0 = Some (Ok 0)).
Proof.
  apply (@first_chunks_at_zero SampleDecls sampleArgs sampleTraits 0).
  reflexivity.
Defined.

(** X13.  In the SMEM pool the alignments never increase (1024 five times,
    then 16 twice), so no padding is lost: for every traits that the
    constructor returns with non-negative chunk sizes and a footprint that
    fits [int32_t], two chunks that are not reused never overlap and the
    later one ends within [getSmemBufferSize]. *)
Theorem smem_chunks_disjoint `{GemmDecls} (a : KernelTraitsArgs)
    (traits : KernelTraits) (i j : nat) (ci cj : Chunk) (fuel : nat) :
  KernelTraits_new a = Ok traits ->
  nonneg_sizes (chunks_of (mSmemAllocatorHelper traits)) = true ->
  fits_int32 (chunks_of (mSmemAllocatorHelper traits)) = true ->
  (i < j)%nat ->
  nth_error (chunks_of (mSmemAllocatorHelper traits)) i = Some ci ->
  nth_error (chunks_of (mSmemAllocatorHelper traits)) j = Some cj ->
  reuseFirstChunk ci = false -> reuseFirstChunk cj = false ->
  exists oi oj t,
    getChunkOffset (S fuel) (mSmemAllocatorHelper traits) (Z.of_nat i)
      = Some (Ok oi) /\
    getChunkOffset (S fuel) (mSmemAllocatorHelper traits) (Z.of_nat j)
      = Some (Ok oj) /\
    getSmemBufferSize traits = Ok t /\
    oi + paddedSize ci <= oj /\ oj + paddedSize cj <= t /\
    ranges_intersect oi (paddedSize ci) oj (paddedSize cj) = false.
Proof.
  intros Hnew. apply KernelTraits_new_shape in Hnew.
  destruct Hnew as (s0 & s1 & s2 & s3 & s4 & s5 & s6 & t0 & t1 & t2 & t3 & ->).
  unfold getSmemBufferSize. cbn [mSmemAllocatorHelper].
  set (h := mkMemAllocatorHelper _ _).
  assert (Heq : planner (chunks_of h) = h) by reflexivity.
  assert (Hal : pow2_alignments (chunks_of h) = true) by reflexivity.
  assert (Hd : alignments_descending (chunks_of h) = true) by reflexivity.
  set (cs := chunks_of h) in *. clearbody cs. clearbody h. subst h.
  intros Hs Hfit Hij Hi Hj Hri Hrj.
  exists (roundUp (spec_offsetBefore cs i) (alignment ci)),
         (roundUp (spec_offsetBefore cs j) (alignment cj)),
         (spec_offsetBefore cs (length cs)).
  split; [now apply getChunkOffset_exact |].
  split; [now apply getChunkOffset_exact |].
  split; [now apply getTotalSize_exact |].
  apply no_gap_layout; try assumption; now apply descending_no_gap.
Qed.

Lemma smem_chunks_disjoint_witness :
  exists oi oj t,
    getChunkOffset 1 (mSmemAllocatorHelper overlapTraits) 1 = Some (Ok oi) /\
    getChunkOffset 1 (mSmemAllocatorHelper overlapTraits) 6 = Some (Ok oj) /\
    getSmemBufferSize overlapTraits = Ok t /\
    oi + paddedSize (mkChunk 1728 1024 false) <= oj /\
    oj + paddedSize (mkChunk 18432 16 false) <= t /\
    ranges_intersect oi (paddedSize (mkChunk 1728 1024 false))
                     oj (paddedSize (mkChunk 18432 16 false)) = false.
Proof.
  apply (@smem_chunks_disjoint SampleDecls overlapArgs overlapTraits 1 6
           (mkChunk 1728 1024 false) (mkChunk 18432 16 false) 0);
    try reflexivity.
  lia.
Defined.

Lemma roundUp_half_step (x : Z) : x mod 4 = 2 -> roundUp x 4 = x + 2.
Proof.
  intros Hx. pose proof (roundUp_bounds x 4 ltac:(lia)) as Hb.
  pose proof (roundUp_multiple x 4 ltac:(lia)) as Hm.
  pose proof (Z.div_mod x 4 ltac:(lia)) as Hdx.
  pose proof (Z.div_mod (roundUp x 4) 4 ltac:(lia)) as Hdr.
  lia.
Qed.

(** X14.  In the TMEM pool the alignment goes up from 2 (matrix D) to 4
    (matrix A): when the padded number of columns of D is not a multiple of
    4 and the chunks of A and SfA are not empty, the columns of SfA start
    inside those of A. *)
Theorem tmem_A_SfA_overlap `{GemmDecls} (a : KernelTraitsArgs)
    (traits : KernelTraits) (cD cA cS : Chunk) (fuel : nat) :
  KernelTraits_new a = Ok traits ->
  nonneg_sizes (chunks_of (mTmemAllocatorHelper traits)) = true ->
  fits_int32 (chunks_of (mTmemAllocatorHelper traits)) = true ->
  nth_error (chunks_of (mTmemAllocatorHelper traits)) 0 = Some cD ->
  nth_error (chunks_of (mTmemAllocatorHelper traits)) 1 = Some cA ->
  nth_error (chunks_of (mTmemAllocatorHelper traits)) 2 = Some cS ->
  paddedSize cD mod 4 = 2 -> 0 < sizeBytes cA -> 0 < sizeBytes cS ->
  exists oA oS,
    getTmemOffsetA (S fuel) traits = Some (Ok oA) /\
    getTmemOffsetSfA (S fuel) traits = Some (Ok oS) /\
    oA < oS < oA + paddedSize cA /\
    ranges_intersect oA (paddedSize cA) oS (paddedSize cS) = true.
Proof.
  intros Hnew. apply KernelTraits_new_shape in Hnew.
  destruct Hnew as (s0 & s1 & s2 & s3 & s4 & s5 & s6 & t0 & t1 & t2 & t3 & ->).
  unfold getTmemOffsetA, getTmemOffsetSfA. cbn [mTmemAllocatorHelper].
  change (mkMemAllocatorHelper [(t0, 2); (t1, 4); (t2, 2); (t3, 2)]
                               [false; false; false; false])
    with (planner [mkChunk t0 2 false; mkChunk t1 4 false; mkChunk t2 2 false;
                   mkChunk t3 2 false]).
  change (chunks_of (planner [mkChunk t0 2 false; mkChunk t1 4 false;
                              mkChunk t2 2 false; mkChunk t3 2 false]))
    with [mkChunk t0 2 false; mkChunk t1 4 false; mkChunk t2 2 false;
          mkChunk t3 2 false].
  set (cs := [mkChunk t0 2 false; mkChunk t1 4 false; mkChunk t2 2 false;
              mkChunk t3 2 false]).
  assert (Hal : pow2_alignments cs = true) by reflexivity.
  intros Hs Hfit HD HA HS HpD HsA HsS.
  injection HD as <-. injection HA as <-. injection HS as <-.
  cbn [sizeBytes] in HsA, HsS.
  exists (roundUp (spec_offsetBefore cs 1) 4), (roundUp (spec_offsetBefore cs 2) 2).
  split; [exact (getChunkOffset_exact cs 1 (mkChunk t1 4 false) fuel Hal Hfit
                   eq_refl eq_refl) |].
  split; [exact (getChunkOffset_exact cs 2 (mkChunk t2 2 false) fuel Hal Hfit
                   eq_refl eq_refl) |].
  assert (H1 : spec_offsetBefore cs 1 = paddedSize (mkChunk t0 2 false))
    by reflexivity.
  assert (H2 : spec_offsetBefore cs 2 =
               paddedSize (mkChunk t0 2 false) + paddedSize (mkChunk t1 4 false))
    by reflexivity.
  rewrite H1, H2, (roundUp_half_step _ HpD).
  set (pD := paddedSize (mkChunk t0 2 false)) in *.
  set (pA := paddedSize (mkChunk t1 4 false)) in *.
  set (pS := paddedSize (mkChunk t2 2 false)) in *.
  assert (HpA : 4 <= pA)
    by (apply roundUp_pos; cbn [sizeBytes alignment]; lia).
  assert (HpS : 2 <= pS)
    by (apply roundUp_pos; cbn [sizeBytes alignment]; lia).
  assert (HmA : pA mod 4 = 0)
    by (apply roundUp_multiple; cbn [sizeBytes alignment]; lia).
  assert (Hev : (pD + pA) mod 2 = 0).
  { pose proof (Z.div_mod pD 4 ltac:(lia)) as HdD.
    pose proof (Z.div_mod pA 4 ltac:(lia)) as HdA.
    replace (pD + pA) with ((2 * (pD / 4) + 2 * (pA / 4) + 1) * 2) by lia.
    apply Z.mod_mul. lia. }
  rewrite (roundUp_aligned _ 2 ltac:(lia) Hev).
  split; [lia |]. unfold ranges_intersect. apply Z.ltb_lt. lia.
Qed.

Lemma tmem_A_SfA_overlap_witness :
  exists oA oS,
    getTmemOffsetA 1 overlapTraits = Some (Ok oA) /\
    getTmemOffsetSfA 1 overlapTraits = Some (Ok oS) /\
    oA < oS < oA + paddedSize (mkChunk 24 4 false) /\
    ranges_intersect oA (paddedSize (mkChunk 24 4 false))
                     oS (paddedSize (mkChunk 24 2 false)) = true.
Proof.
  apply (@tmem_A_SfA_overlap SampleDecls overlapArgs overlapTraits
           (mkChunk 18 2 false) (mkChunk 24 4 false) (mkChunk 24 2 false) 0);
    try reflexivity; lia.
Defined.

Lemma wrap_above (z : Z) :
  Int32.max_signed < z <= Int32.max_signed + 4294967296 ->
  Int32.wrap z = z - 4294967296.
Proof.
  unfold Int32.max_signed, Int32.wrap. intros Hz.
  replace (z + 2147483648) with (z - 2147483648 + 1 * 4294967296) by lia.
  rewrite Z.mod_add by lia. rewrite Z.mod_small by lia. lia.
Qed.

(** X15.  [getSmemOffsetGmemC] does not check [resIdx]: the chunk read is
    [3 + resIdx], and for every [resIdx] below -3 or above 3 the call reads
    the reuse flags out of their bounds, with no defined behaviour. *)
Theorem gmemC_index_unchecked `{GemmDecls} (a : KernelTraitsArgs)
    (traits : KernelTraits) (resIdx : Z) (fuel : nat) :
  KernelTraits_new a = Ok traits ->
  Int32.in_range resIdx = true ->
  resIdx < -3 \/ 3 < resIdx ->
  getSmemOffsetGmemC (S fuel) traits resIdx = Some Undefined.
Proof.
  intros Hnew Hrange Hout. apply KernelTraits_new_shape in Hnew.
  destruct Hnew as (s0 & s1 & s2 & s3 & s4 & s5 & s6 & t0 & t1 & t2 & t3 & ->).
  unfold getSmemOffsetGmemC. cbn [mSmemAllocatorHelper getChunkOffset].
  rewrite vec_get_outside; [reflexivity |].
  cbn [mFirstChunkReuse length].
  unfold Int32.in_range in Hrange. apply andb_true_iff in Hrange.
  destruct Hrange as [Hlo Hhi]. apply Z.leb_le in Hlo. apply Z.leb_le in Hhi.
  unfold Int32.add.
  destruct (Z.le_gt_cases (3 + resIdx) Int32.max_signed) as [Hfit | Hover].
  - rewrite wrap_small by (unfold Int32.min_signed, Int32.max_signed in *; lia).
    lia.
  - rewrite wrap_above by (unfold Int32.max_signed in *; lia).
    unfold Int32.max_signed in *. lia.
Qed.

Lemma gmemC_index_unchecked_witness :
  getSmemOffsetGmemC 2 sampleTraits 4 = Some Undefined.
Proof.
  apply (@gmemC_index_unchecked SampleDecls sampleArgs sampleTraits 4 1);
    try reflexivity.
  right. lia.
Defined.

(** X17.  [ceilDiv m n] is the ceiling of [m / n] for [m >= 0] and [n > 0]
    when [m + n] fits [int32_t]: the result [q] is the least integer with
    [m <= n * q]. *)
Theorem ceilDiv_ceiling (m n : Z) :
  0 <= m -> 0 < n -> m + n <= Int32.max_signed ->
  exists q, ceilDiv m n = Ok q /\ n * (q - 1) < m <= n * q.
Proof.
  intros Hm Hn Hfit. exists ((m + n - 1) / n). unfold ceilDiv, Int32.add, Int32.sub.
  rewrite (wrap_small (m + n)) by (unfold Int32.min_signed; lia).
  rewrite wrap_small by (unfold Int32.min_signed; lia).
  split.
  - rewrite div32_defined_ok.
    + now rewrite Z.quot_div_nonneg by lia.
    + unfold div32_defined.
      destruct (Z.eqb_spec n 0); [lia |].
      destruct (Z.eqb_spec n (-1)); [lia |].
      now rewrite andb_false_r.
  - pose proof (Z.div_mod (m + n - 1) n ltac:(lia)) as Hdm.
    pose proof (Z.mod_pos_bound (m + n - 1) n Hn) as Hmod. nia.
Qed.

Lemma ceilDiv_ceiling_witness :
  exists q, ceilDiv 130 64 = Ok q /\ 64 * (q - 1) < 130 <= 64 * q.
Proof.
  apply (ceilDiv_ceiling 130 64); unfold Int32.max_signed; lia.
Defined.

Ltac resolve_conditions H :=
  repeat match type of H with
         | context [if ?b then _ else _] => destruct b eqn:?
         end;
  cbn [bind] in H.

Ltac constructor_result H :=
  unfold KernelTraits_new, buildSmem, buildTmem, smemGmemC, ceilDiv in H;
  rewrite ?div32_8, ?div32_64 in H;
  resolve_conditions H; bind_inversion H; cbn [bind] in H;
  injection H as <-;
  cbn [mSmemAllocatorHelper mTmemAllocatorHelper
       mNumBytesAndAlignmentPerSmemChunk emplace fst snd app nth_error].

(** X16.  A feature that is switched off takes no room: without slice-K the
    chunks of shuffled B, of sliceK and of the TMEM matrix A have size 0;
    without TMA store and DSMEM split-K both GmemC chunks have size 0;
    without DeepSeek FP8 the second GmemC chunk and rowMax have size 0; and
    without a block-scaled element type SfA and SfB have size 0. *)
Theorem disabled_features_empty `{GemmDecls} (a : KernelTraitsArgs)
    (traits : KernelTraits) :
  KernelTraits_new a = Ok traits ->
  let smem := mNumBytesAndAlignmentPerSmemChunk (mSmemAllocatorHelper traits) in
  let tmem := mNumBytesAndAlignmentPerSmemChunk (mTmemAllocatorHelper traits) in
  (numSlicesForSliceK a <= 1 ->
   nth_error smem 2 = Some (0, 1024) /\ nth_error smem 6 = Some (0, 16) /\
   nth_error tmem 1 = Some (0, 4)) /\
  (useTmaStore a = false -> doesSplitKUseDsmem (splitK a) = false ->
   nth_error smem 3 = Some (0, 1024) /\ nth_error smem 4 = Some (0, 1024)) /\
  (useDeepSeekFp8 a = false ->
   nth_error smem 4 = Some (0, 1024) /\ nth_error smem 5 = Some (0, 16)) /\
  (dtypeIsBlockFmt (dtypeElt a) = false ->
   nth_error tmem 2 = Some (0, 2) /\ nth_error tmem 3 = Some (0, 2)).
Proof.
  intros Hnew smem tmem. subst smem tmem.
  unfold KernelTraits_new, buildSmem, buildTmem, smemGmemC, ceilDiv in Hnew.
  rewrite ?div32_8, ?div32_64 in Hnew.
  split; [| split; [| split]].
  - intros Hle.
    assert (Hlt : (1 <? numSlicesForSliceK a) = false)
      by (apply Z.ltb_ge; lia).
    rewrite !Hlt in Hnew. constructor_result Hnew. all: repeat split.
  - intros Htma Hdsmem. rewrite !Htma, !Hdsmem in Hnew. cbn [orb] in Hnew.
    constructor_result Hnew. all: repeat split.
  - intros Hfp8. rewrite !Hfp8 in Hnew. cbn [andb negb Z.eqb] in Hnew.
    constructor_result Hnew. all: repeat split.
  - intros Hblock. rewrite !Hblock in Hnew.
    constructor_result Hnew. all: repeat split.
Qed.

Lemma disabled_features_empty_witness :
  let smem :=
    mNumBytesAndAlignmentPerSmemChunk (mSmemAllocatorHelper sampleTraits) in
  let tmem :=
    mNumBytesAndAlignmentPerSmemChunk (mTmemAllocatorHelper sampleTraits) in
  (1 <= 1 ->
   nth_error smem 2 = Some (0, 1024) /\ nth_error smem 6 = Some (0, 16) /\
   nth_error tmem 1 = Some (0, 4)) /\
  (true = false -> true = false ->
   nth_error smem 3 = Some (0, 1024) /\ nth_error smem 4 = Some (0, 1024)) /\
  (false = false ->
   nth_error smem 4 = Some (0, 1024) /\ nth_error smem 5 = Some (0, 16)) /\
  (false = false ->
   nth_error tmem 2 = Some (0, 2) /\ nth_error tmem 3 = Some (0, 2)).
Proof.
  apply (@disabled_features_empty SampleDecls sampleArgs sampleTraits).
  reflexivity.
Defined.

(** ** The argument checks of the MoE runner *)

Ltac checks_inversion H :=
  repeat match type of H with
         | context [and_then ?m _] =>
             lazymatch m with
             | context [and_then _ _] => fail
             | _ => idtac
             end;
             let E := fresh "Hcheck" in
             destruct m eqn:E; cbn [and_then] in H; try discriminate H
         end.

Lemma TORCH_CHECK_passed (cond : bool) (msg : String.string) (u : unit) :
  TORCH_CHECK cond msg = Passed u -> cond = true.
Proof. unfold TORCH_CHECK. destruct cond; [reflexivity | discriminate]. Qed.

(** X18.  When the checks that open [fp8_block_scale_moe_runner] pass (for a
    number of experts below 2^61), [top_k] is 8 and [topk_group] is 4, the
    number of experts is a multiple of 4 and at least 12, and [n_group] is
    positive, divides the number of experts and leaves at least three
    experts in each group. *)
Theorem accepted_routing_arguments (sm : Z) (routing_logits routing_bias : Tensor)
    (num_experts top_k n_group topk_group : Z) :
  num_experts < 2305843009213693952 ->
  fp8_block_scale_moe_runner_checks sm routing_logits routing_bias
    num_experts top_k n_group topk_group = Passed tt ->
  sm = 100 /\
  sizes routing_logits = [nth 0 (sizes routing_logits) 0; num_experts] /\
  sizes routing_bias = [num_experts] /\
  top_k = 8 /\ topk_group = 4 /\
  num_experts mod 4 = 0 /\ 12 <= num_experts /\
  0 < n_group /\ num_experts mod n_group = 0 /\ 3 * n_group <= num_experts.
Proof.
  intros Hbound Hchecks. unfold fp8_block_scale_moe_runner_checks in Hchecks.
  checks_inversion Hchecks.
  repeat match goal with
         | Hc : TORCH_CHECK _ _ = Passed _ |- _ =>
             apply TORCH_CHECK_passed in Hc
         end.
  repeat match goal with
         | Hc : (_ =? _) = true |- _ => apply Z.eqb_eq in Hc
         | Hc : (_ <? _) = true |- _ => apply Z.ltb_lt in Hc
         end.
  subst.
  unfold sizes_at in *. unfold dim in *.
  destruct (sizes routing_logits) as [| l0 [| l1 [| l2 ls]]];
    cbn [length nth_error] in *; try lia.
  destruct (sizes routing_bias) as [| b0 [| b1 bs]];
    cbn [length nth_error] in *; try lia.
  unfold rem64, div64 in *.
  repeat match goal with
         | Hc : (if ?b then _ else _) = Passed _ |- _ =>
             destruct b eqn:?; [injection Hc as Hc | discriminate Hc]
         | Hc : Passed _ = Passed _ |- _ => injection Hc as Hc
         end.
  subst.
  match goal with
  | Hd : divisor64_defined _ n_group = true |- _ =>
      unfold divisor64_defined in Hd; apply andb_true_iff in Hd;
      destruct Hd as [Hd _]; apply negb_true_iff, Z.eqb_neq in Hd
  end.
  assert (Hmul : Int64.mul 4 num_experts = 4 * num_experts).
  { unfold Int64.mul, Int64.wrap. rewrite Z.mod_small by lia. lia. }
  rewrite Hmul in *.
  assert (Hr4 : num_experts mod 4 = 0) by (rewrite <- Z.rem_mod_nonneg; lia).
  assert (Hpos : 0 < n_group).
  { destruct (Z.lt_trichotomy n_group 0) as [Hneg | [Hz | Hp]]; [| lia | lia].
    exfalso.
    assert (Hq : Z.quot (4 * num_experts) n_group <= 0).
    { rewrite <- (Z.opp_involutive n_group), Z.quot_opp_r by lia.
      pose proof (Z.quot_pos (4 * num_experts) (- n_group) ltac:(lia) ltac:(lia)). lia. }
    lia. }
  assert (Hrg : num_experts mod n_group = 0) by (rewrite <- Z.rem_mod_nonneg; lia).
  rewrite Z.quot_div_nonneg in * by lia.
  pose proof (Z.div_mod num_experts 4 ltac:(lia)) as Hd4.
  pose proof Hrg as Hex. apply Z.div_exact in Hex; [| lia].
  assert (Hq : 4 * num_experts / n_group = 4 * (num_experts / n_group)).
  { rewrite Hex at 1.
    replace (4 * (n_group * (num_experts / n_group)))
      with (4 * (num_experts / n_group) * n_group) by lia.
    apply Z.div_mul. lia. }
  rewrite Hq in Hchecks.
  set (k := num_experts / n_group) in *. clearbody k.
  assert (Hk : 0 <= (k - 3) * n_group) by (apply Z.mul_nonneg_nonneg; lia).
  repeat split; try reflexivity; lia.
Qed.

Lemma accepted_routing_arguments_witness :
  100 = 100 /\
  sizes sampleLogits = [nth 0 (sizes sampleLogits) 0; 256] /\
  sizes sampleBias = [256] /\
  8 = 8 /\ 4 = 4 /\ 256 mod 4 = 0 /\ 12 <= 256 /\
  0 < 8 /\ 256 mod 8 = 0 /\ 3 * 8 <= 256.
Proof.
  apply (accepted_routing_arguments 100 sampleLogits sampleBias 256 8 8 4).
  - lia.
  - reflexivity.
Defined.

(** X19.  No check rejects [n_group = 0]: when the checks before it pass,
    the evaluation of [num_experts % n_group] divides by zero, which has no
    defined behaviour. *)
Theorem zero_n_group_undefined (routing_logits routing_bias : Tensor)
    (num_tokens num_experts : Z) :
  scalar_type routing_logits = ScalarType_Float ->
  sizes routing_logits = [num_tokens; num_experts] ->
  scalar_type routing_bias = ScalarType_BFloat16 ->
  sizes routing_bias = [num_experts] ->
  Z.rem num_experts 4 = 0 ->
  fp8_block_scale_moe_runner_checks 100 routing_logits routing_bias
    num_experts 8 0 4 = UndefinedBehaviour.
Proof.
  intros Hl Hls Hb Hbs H4. unfold fp8_block_scale_moe_runner_checks.
  unfold dim, sizes_at. rewrite Hl, Hls, Hb, Hbs.
  cbn [ScalarType_eqb length nth_error Z.of_nat Pos.of_succ_nat Pos.succ
       Z.eqb Pos.eqb TORCH_CHECK and_then].
  rewrite Z.eqb_refl. cbn [TORCH_CHECK and_then].
  unfold rem64 at 1.
  assert (Hd : divisor64_defined num_experts 4 = true).
  { unfold divisor64_defined. cbn [Z.eqb]. now rewrite andb_false_r. }
  rewrite Hd, H4. reflexivity.
Qed.

Lemma zero_n_group_undefined_witness :
  fp8_block_scale_moe_runner_checks 100 sampleLogits sampleBias 256 8 0 4
    = UndefinedBehaviour.
Proof.
  apply (zero_n_group_undefined sampleLogits sampleBias 16 256); reflexivity.
Defined.

(** ** Vectors of different lengths *)

Lemma offsetLoop_short_reuse (h : MemAllocatorHelper) (n i : nat) (t : Z) :
  forallb (fun e => valid_alignment (snd e))
          (mNumBytesAndAlignmentPerSmemChunk h) = true ->
  (i <= length (mFirstChunkReuse h))%nat ->
  (length (mFirstChunkReuse h) < i + n)%nat ->
  (i + n <= length (mNumBytesAndAlignmentPerSmemChunk h))%nat ->
  offsetLoop h n (Z.of_nat i) t = Undefined.
Proof.
  intros Hal. revert i t.
  induction n as [| n IH]; intros i t Hi Hn Hlen; [lia |].
  cbn [offsetLoop]. unfold vec_get.
  destruct (Z.ltb_spec (Z.of_nat i) 0) as [Hneg | _]; [lia |].
  rewrite Nat2Z.id.
  destruct (nth_error (mNumBytesAndAlignmentPerSmemChunk h) i) as [e |] eqn:He;
    [| apply nth_error_None in He; lia].
  cbn [bind].
  assert (Hv : valid_alignment (snd e) = true).
  { rewrite forallb_forall in Hal. apply Hal. eapply nth_error_In, He. }
  destruct (getSizePaddedToAlignment_valid (fst e) _ Hv) as (p & Hp & _).
  rewrite Hp. cbn [bind].
  destruct (nth_error (mFirstChunkReuse h) i) as [r |] eqn:Hr; [| reflexivity].
  assert (Hlt : (i < length (mFirstChunkReuse h))%nat)
    by (apply nth_error_Some; now rewrite Hr).
  cbn [bind]. replace (Z.of_nat i + 1) with (Z.of_nat (S i)) by lia.
  rewrite !IH by lia.
  destruct (r && (t <? p)); [reflexivity |]. destruct (negb r); reflexivity.
Qed.

(** X20.  The constructor of [MemAllocatorHelper] does not compare the
    lengths of its two vectors: when there are fewer reuse flags than
    (size, alignment) pairs, and the alignments are powers of two,
    [getTotalSize] reads the flags out of their bounds, with no defined
    behaviour. *)
Theorem total_size_short_reuse_vector (sizes : list (Z * Z))
    (reuse : list bool) :
  forallb (fun e => valid_alignment (snd e)) sizes = true ->
  (length reuse < length sizes)%nat ->
  Z.of_nat (length sizes) <= Int32.max_signed ->
  getTotalSize (mkMemAllocatorHelper sizes reuse) = Undefined.
Proof.
  intros Hal Hlen Hfit. unfold getTotalSize, getOffsetBeforeChunk.
  cbn [mNumBytesAndAlignmentPerSmemChunk].
  rewrite wrap_small by (unfold Int32.min_signed; lia).
  rewrite Nat2Z.id. apply (offsetLoop_short_reuse _ (length sizes) 0 0);
    cbn [mNumBytesAndAlignmentPerSmemChunk mFirstChunkReuse]; try assumption;
    lia.
Qed.

Lemma total_size_short_reuse_vector_witness :
  getTotalSize (mkMemAllocatorHelper [(100, 16); (50, 16)] [false])
    = Undefined.
Proof.
  apply (total_size_short_reuse_vector [(100, 16); (50, 16)] [false]).
  - reflexivity.
  - cbn. lia.
  - cbn. unfold Int32.max_signed. lia.
Defined.
